(** * ConvertIdsToSlugs: slug generation, document scan and conversion run

    A shallow embedding of [src/ConvertIdsToSlugs.tsx]: the slug generator
    [generateSlug], the scanner [scanForDocuments] and the conversion
    pipeline [convertToSlugs].

    - Strings are sequences of UTF-16 code units; numbers are integers
      ([NaN], the infinities and fractions are left out).
    - A value of type [any] is a [JsValue]; a document has its own
      properties and those it inherits from [Object.prototype].
    - The store client is an interface of two functions that may throw,
      over a store of any type; every call on it is logged.
    - The callbacks run in a state and exception monad; what the component
      does to its interface (state setters, [onComplete], [onError]) is a
      list of events.
    - The outer loop of [convertToSlugs] runs on fuel, since nothing bounds
      it when [batchSize] is not positive. *)

From Stdlib Require Import ZArith List Bool Lia Ascii String DecimalString.
Import ListNotations.
Local Open Scope Z_scope.

(** ** JavaScript strings

    A JavaScript string is a sequence of UTF-16 code units. *)

Definition jsstring := list Z.

(** An ASCII literal as a JavaScript string. *)
Definition lit (s : string) : jsstring :=
  map (fun a => Z.of_N (N_of_ascii a)) (list_ascii_of_string s).

Fixpoint jsEqb (a b : jsstring) : bool :=
  match a, b with
  | [], [] => true
  | x :: a', y :: b' => (x =? y) && jsEqb a' b'
  | _, _ => false
  end.

(** Truthiness of a string: [!text] holds exactly for the empty string. *)
Definition nonEmpty (s : jsstring) : bool :=
  match s with [] => false | _ :: _ => true end.

(** [`${n}`] for an integer [n], in digits: what a template literal prints
    for an integer below 10^21 in size (from there on it prints an
    exponent). *)
Definition decimal (n : Z) : jsstring :=
  lit (NilZero.string_of_int (Z.to_int n)).

Definition inRange (lo hi c : Z) : bool := (lo <=? c) && (c <=? hi).

Definition hyphen : Z := 45.
Definition underscore : Z := 95.
Definition quote : Z := 34.

Definition isUpperAscii (c : Z) : bool := inRange 65 90 c.
Definition isLowerAscii (c : Z) : bool := inRange 97 122 c.
Definition isDigit (c : Z) : bool := inRange 48 57 c.
Definition isHyphen (c : Z) : bool := c =? hyphen.

(** The class [\w] of a regular expression without the [u] flag:
    [[A-Za-z0-9_]]. *)
Definition isWordChar (c : Z) : bool :=
  isUpperAscii c || isLowerAscii c || isDigit c || (c =? underscore).

(** The class [\s], which is also what [String.prototype.trim] removes:
    WhiteSpace and LineTerminator code units. *)
Definition isWhiteSpace (c : Z) : bool :=
  inRange 9 13 c || (c =? 32) || (c =? 160) || (c =? 5760)
  || inRange 8192 8202 c || (c =? 8232) || (c =? 8233) || (c =? 8239)
  || (c =? 8287) || (c =? 12288) || (c =? 65279).

(** Characters of a finished slug: [[a-z0-9-]]. *)
Definition isSlugChar (c : Z) : bool :=
  isLowerAscii c || isDigit c || isHyphen c.

(** *** [String.prototype.toLowerCase]

    ASCII letters are lowered here.  The Unicode case pairs beyond ASCII are
    the host's and are taken as a table from a code unit to the units of its
    lowercase form; a unit that the table does not list is left as it is.
    The mapping is taken unit by unit: what depends on the neighbours of a
    unit (the final sigma, a surrogate pair) lies beyond ASCII on both
    sides, and [generateSlug] deletes it either way. *)

Definition CaseTable := list (Z * list Z).

Fixpoint lookupCase (tbl : CaseTable) (c : Z) : option (list Z) :=
  match tbl with
  | [] => None
  | (k, v) :: tbl' => if k =? c then Some v else lookupCase tbl' c
  end.

Definition lowerUnit (tbl : CaseTable) (c : Z) : list Z :=
  if isUpperAscii c then [c + 32]
  else if c <? 128 then [c]
  else match lookupCase tbl c with Some l => l | None => [c] end.

Definition toLowerCase (tbl : CaseTable) (s : jsstring) : jsstring :=
  flat_map (lowerUnit tbl) s.

(** No lowercase form holds an ASCII capital: true of the Unicode tables. *)
Definition caseTableOk (tbl : CaseTable) : bool :=
  forallb (fun e => forallb (fun c => negb (isUpperAscii c)) (snd e)) tbl.

(** A few of the Unicode pairs, among them the two whose lowercase form
    holds an ASCII letter (U+0130 and the Kelvin sign U+212A). *)
Definition sampleCaseTable : CaseTable :=
  [ (304, [105; 775]); (8490, [107]); (8491, [229]);
    (192, [224]); (201, [233]); (214, [246]); (220, [252]);
    (915, [947]); (1046, [1078]) ].

(** *** String helpers used by the regular expressions *)

Fixpoint dropWhile (p : Z -> bool) (s : jsstring) : jsstring :=
  match s with
  | [] => []
  | c :: r => if p c then dropWhile p r else s
  end.

Definition dropWhileEnd (p : Z -> bool) (s : jsstring) : jsstring :=
  rev (dropWhile p (rev s)).

(** [s.trim()] *)
Definition trim (s : jsstring) : jsstring :=
  dropWhileEnd isWhiteSpace (dropWhile isWhiteSpace s).

(** [s.replace(/[^\w\s-]/g, '')] *)
Definition keptChar (c : Z) : bool :=
  isWordChar c || isWhiteSpace c || isHyphen c.

Definition removeSpecial (s : jsstring) : jsstring := filter keptChar s.

(** [s.replace(/[\s_-]+/g, '-')]: every maximal run of separators becomes
    one hyphen, written when the last unit of the run is reached. *)
Definition isSeparator (c : Z) : bool :=
  isWhiteSpace c || (c =? underscore) || isHyphen c.

Fixpoint collapseSeparators (s : jsstring) : jsstring :=
  match s with
  | [] => []
  | c :: r =>
      if isSeparator c then
        match r with
        | c' :: _ => if isSeparator c' then collapseSeparators r
                     else hyphen :: collapseSeparators r
        | [] => [hyphen]
        end
      else c :: collapseSeparators r
  end.

(** [s.replace(/^-+|-+$/g, '')] *)
Definition stripHyphens (s : jsstring) : jsstring :=
  dropWhileEnd isHyphen (dropWhile isHyphen s).

(** ** Configuration

    The props of the component ([batchSize], [dryRun], [maxDocuments]) and
    the form state its callbacks close over.  Numbers are integers here:
    what is proved of a batch size or of a result cap is proved of integers,
    and the other values of a JavaScript number ([NaN], the infinities,
    fractions) are left out. *)

Record Config := {
  batchSize : Z;
  dryRun : bool;
  maxDocuments : Z;
  selectedType : jsstring;
  searchQuery : jsstring;
  useCustomQuery : bool;
  customGroqQuery : jsstring;
  slugField : jsstring;
  sourceField : jsstring;
  slugPrefix : jsstring;
  slugSuffix : jsstring;
  replaceExisting : bool
}.

(** The defaults of the props and of the [useState] calls. *)
Definition defaultConfig : Config := {|
  batchSize := 10; dryRun := false; maxDocuments := 1000;
  selectedType := []; searchQuery := [];
  useCustomQuery := false; customGroqQuery := [];
  slugField := lit "slug"; sourceField := lit "title";
  slugPrefix := []; slugSuffix := [];
  replaceExisting := false |}.

(** ** The slug generator *)

Section Generator.
Variable tbl : CaseTable.
Variable cfg : Config.

(** The chain of string methods of [generateSlug], before the affixes. *)
Definition baseSlug (text : jsstring) : jsstring :=
  stripHyphens
    (collapseSeparators
       (removeSpecial (trim (toLowerCase tbl text)))).

Definition generateSlug (text : jsstring) : jsstring :=
  if negb (nonEmpty text) then []
  else
    let slug := baseSlug text in
    let slug :=
      if nonEmpty (slugPrefix cfg)
      then slugPrefix cfg ++ [hyphen] ++ slug else slug in
    let slug :=
      if nonEmpty (slugSuffix cfg)
      then slug ++ [hyphen] ++ slugSuffix cfg else slug in
    slug.
End Generator.

(** ** Values, documents and exceptions *)

(** A value of type [any].  Numbers are integers here; an object is given
    by its own properties, a built-in function by its name. *)
#[local] Unset Elimination Schemes.
Inductive JsValue :=
| JUndefined
| JNull
| JBool (b : bool)
| JNumber (n : Z)
| JString (s : jsstring)
| JObject (props : list (jsstring * JsValue))
| JFunction (name : jsstring).
#[local] Set Elimination Schemes.

(** [ToBoolean] *)
Definition truthy (v : JsValue) : bool :=
  match v with
  | JUndefined | JNull => false
  | JBool b => b
  | JNumber n => negb (n =? 0)
  | JString s => nonEmpty s
  | JObject _ => true
  | JFunction _ => true
  end.

(** [a || b] and [a && b] give back one of their operands. *)
Definition jsOr (a b : JsValue) : JsValue := if truthy a then a else b.
Definition jsAnd (a b : JsValue) : JsValue := if truthy a then b else a.

(** Own properties of an object, by key. *)
Fixpoint lookupProp (k : jsstring) (props : list (jsstring * JsValue)) : JsValue :=
  match props with
  | [] => JUndefined
  | (k', v) :: r => if jsEqb k' k then v else lookupProp k r
  end.

(** [interface DocumentWithSlug]: [_id] and [_type] are strings, every
    other attribute ([title], [name], the slug attribute, ...) is optional
    and reached by key. *)
Record Document := {
  _id : jsstring;
  _type : jsstring;
  attrs : list (jsstring * JsValue)
}.

Definition hasOwn (k : jsstring) (props : list (jsstring * JsValue)) : bool :=
  existsb (fun kv => jsEqb (fst kv) k) props.

(** The methods every object inherits from [Object.prototype]. *)
Definition objectPrototypeMethods : list jsstring :=
  map lit
    ["constructor"; "hasOwnProperty"; "isPrototypeOf"; "propertyIsEnumerable";
     "toLocaleString"; "toString"; "valueOf";
     "__defineGetter__"; "__defineSetter__";
     "__lookupGetter__"; "__lookupSetter__"]%string.

(** What a key gives on an object that has no own property of that name: a
    document fetched from the store is a plain object, so the look-up goes on
    in [Object.prototype], whose methods are functions and whose accessor
    [__proto__] gives the prototype itself. *)
Definition inheritedProp (k : jsstring) : JsValue :=
  if existsb (jsEqb k) objectPrototypeMethods then JFunction k
  else if jsEqb k (lit "__proto__")
  then JObject (map (fun m => (m, JFunction m)) objectPrototypeMethods)
  else JUndefined.

(** [doc[key]]: an own property, or else an inherited one. *)
Definition getProp (d : Document) (k : jsstring) : JsValue :=
  if jsEqb k (lit "_id") then JString (_id d)
  else if jsEqb k (lit "_type") then JString (_type d)
  else if hasOwn k (attrs d) then lookupProp k (attrs d)
  else inheritedProp k.

(** [v?.current]: [undefined] on [null] and [undefined], and on a value that
    has no such property. *)
Definition optCurrent (v : JsValue) : JsValue :=
  match v with
  | JObject props => lookupProp (lit "current") props
  | _ => JUndefined
  end.

(** What a [throw] carries: an [Error] with its message, or another value. *)
Inductive Thrown :=
| ThrownError (message : jsstring)
| ThrownValue (v : JsValue).

(** [error instanceof Error ? error.message : fallback] *)
Definition errorMessage (e : Thrown) (fallback : jsstring) : jsstring :=
  match e with
  | ThrownError m => m
  | ThrownValue _ => fallback
  end.

Inductive Result (A : Type) :=
| Ok (a : A)
| Throw (e : Thrown).
Arguments Ok {A} a.
Arguments Throw {A} e.

(** ** The store client

    The three shapes of query the component sends.  [render] gives the text
    of each, as the template literals of the source build it. *)

Inductive Query :=
| QCustom (groq : jsstring)
| QScan (typeFilter : option jsstring) (searchFilter : option jsstring)
        (cap : Z) (field : jsstring)
| QProbe (type field slug id : jsstring).

Definition newline : jsstring := [10].

Definition renderTypeFilter (t : option jsstring) : jsstring :=
  match t with
  | Some ty => lit "_type == " ++ [quote] ++ ty ++ [quote]
  | None => lit "defined(_type)"
  end.

Definition renderSearchFilter (q : option jsstring) : jsstring :=
  match q with
  | Some sq =>
      lit " && (title match " ++ [quote] ++ lit "*" ++ sq ++ lit "*" ++ [quote]
      ++ lit " || name match " ++ [quote] ++ lit "*" ++ sq ++ lit "*" ++ [quote]
      ++ lit ")"
  | None => []
  end.

Definition render (q : Query) : jsstring :=
  match q with
  | QCustom groq => groq
  | QScan t s n f =>
      lit "*[" ++ renderTypeFilter t ++ renderSearchFilter s
      ++ lit "][0..." ++ decimal n ++ lit "] {" ++ newline
      ++ lit "          _id," ++ newline
      ++ lit "          _type," ++ newline
      ++ lit "          title," ++ newline
      ++ lit "          name," ++ newline
      ++ lit "          " ++ f ++ newline
      ++ lit "        }"
  | QProbe ty f _ _ =>
      lit "*[_type == " ++ [quote] ++ ty ++ [quote] ++ lit " && " ++ f
      ++ lit ".current == $slug && _id != $id][0]"
  end.

(** The parameters sent with a query: [{ slug: newSlug, id: doc._id }]. *)
Definition params (q : Query) : list (jsstring * jsstring) :=
  match q with
  | QProbe _ _ slug id => [(lit "slug", slug); (lit "id", id)]
  | _ => []
  end.

(** What [fetch] resolves to: an array of documents, or, for a query ending
    in [[0]], one document or [null]. *)
Inductive FetchResult :=
| Docs (l : list Document)
| Single (d : option Document).

Definition fetchTruthy (r : FetchResult) : bool :=
  match r with
  | Docs _ => true
  | Single (Some _) => true
  | Single None => false
  end.

(** [client.patch(id).set({ [field]: value }).commit()] *)
Record Patch := {
  patchId : jsstring;
  patchField : jsstring;
  patchValue : JsValue
}.

(** [{ _type: 'slug', current: finalSlug }] *)
Definition slugValue (finalSlug : jsstring) : JsValue :=
  JObject [(lit "_type", JString (lit "slug")); (lit "current", JString finalSlug)].

(** The client over a store of type [Store]: [fetch] reads, [commit] writes
    one document; either may throw. *)
Record SanityClient (Store : Type) := {
  fetch : Query -> Store -> Result FetchResult;
  commit : Patch -> Store -> Result Store
}.
Arguments fetch {Store} _ _ _.
Arguments commit {Store} _ _ _.

Inductive Call :=
| CallFetch (q : Query)
| CallCommit (p : Patch).

(** The world outside the component: the store, the successive readings of
    [Date.now()] with the number of readings taken, and the calls made on
    the client, oldest first. *)
Record World (Store : Type) := {
  store : Store;
  clock : nat -> Z;
  reads : nat;
  calls : list Call
}.
Arguments store {Store} _.
Arguments clock {Store} _.
Arguments reads {Store} _.
Arguments calls {Store} _.

(** [interface ConversionResult], which is also the three locals of
    [convertToSlugs]. *)
Record ConversionResult := {
  converted : nat;
  errors : list jsstring;
  slugsGenerated : list jsstring
}.

(** What the component does to its interface: state setters and the two
    callbacks, in the order of the calls. *)
Inductive UiEvent :=
| SetIsScanning (b : bool)
| SetIsLoading (b : bool)
| SetMessage (m : jsstring)
| SetDocuments (r : FetchResult)
| SetDocumentsToConvert (l : list Document)
| OnComplete (r : ConversionResult)
| OnError (m : jsstring).

(** ** A state and exception monad

    A computation runs on a state and ends in a value or in a thrown
    exception; what it did to the state before throwing stays done. *)

Definition M (S A : Type) : Type := S -> Result A * S.

Definition ret {S A} (a : A) : M S A := fun s => (Ok a, s).

Definition bind {S A B} (m : M S A) (k : A -> M S B) : M S B :=
  fun s =>
    match m s with
    | (Ok a, s') => k a s'
    | (Throw e, s') => (Throw e, s')
    end.

Definition liftResult {S A} (r : Result A) : M S A := fun s => (r, s).

Definition modify {S} (f : S -> S) : M S unit := fun s => (Ok tt, f s).

(** [try { body } catch (error) { handler }] *)
Definition tryCatch {S A} (body : M S A) (handler : Thrown -> M S A) : M S A :=
  fun s =>
    match body s with
    | (Ok a, s') => (Ok a, s')
    | (Throw e, s') => handler e s'
    end.

Notation "x <- c1 ;; c2" := (bind c1 (fun x => c2))
  (at level 61, c1 at next level, right associativity).
Notation "c1 ;; c2" := (bind c1 (fun _ => c2))
  (at level 61, right associativity).

(** [for (const x of l) body(x)] *)
Fixpoint forEach {S A} (body : A -> M S unit) (l : list A) : M S unit :=
  match l with
  | [] => ret tt
  | x :: r => body x ;; forEach body r
  end.

(** [Array.prototype.slice(start, end)] *)
Definition clampIndex (len k : Z) : Z :=
  if k <? 0 then Z.max (len + k) 0 else Z.min k len.

Definition slice {A} (l : list A) (s e : Z) : list A :=
  let len := Z.of_nat (List.length l) in
  let a := clampIndex len s in
  let b := clampIndex len e in
  firstn (Z.to_nat (b - a)) (skipn (Z.to_nat a) l).

(** ** The component *)

Section Component.
Context {Store : Type}.
Variable client : SanityClient Store.
Variable tbl : CaseTable.
Variable cfg : Config.

(** The locals of a conversion run and the world it runs in. *)
Record Core := {
  locals : ConversionResult;
  world : World Store
}.

(** The interface events so far, and the core. *)
Record St := {
  ui : list UiEvent;
  core : Core
}.

Definition logCall (c : Call) (w : World Store) : World Store :=
  {| store := store w; clock := clock w; reads := reads w;
     calls := calls w ++ [c] |}.

Definition setStore (st : Store) (w : World Store) : World Store :=
  {| store := st; clock := clock w; reads := reads w; calls := calls w |}.

(** [await client.fetch(query, params)] *)
Definition clientFetch (q : Query) : M Core FetchResult :=
  fun s =>
    (fetch client q (store (world s)),
     {| locals := locals s; world := logCall (CallFetch q) (world s) |}).

(** [await client.patch(id).set(...).commit()] *)
Definition clientCommit (p : Patch) : M Core unit :=
  fun s =>
    let w := logCall (CallCommit p) (world s) in
    match commit client p (store w) with
    | Ok st' => (Ok tt, {| locals := locals s; world := setStore st' w |})
    | Throw e => (Throw e, {| locals := locals s; world := w |})
    end.

(** [Date.now()] *)
Definition dateNow : M Core Z :=
  fun s =>
    let w := world s in
    (Ok (clock w (reads w)),
     {| locals := locals s;
        world := {| store := store w; clock := clock w;
                    reads := S (reads w); calls := calls w |} |}).

Definition updLocals (f : ConversionResult -> ConversionResult) : M Core unit :=
  modify (fun s => {| locals := f (locals s); world := world s |}).

(** [errors.push(m)] *)
Definition pushError (m : jsstring) : M Core unit :=
  updLocals (fun l => {| converted := converted l;
                         errors := errors l ++ [m];
                         slugsGenerated := slugsGenerated l |}).

(** [converted++] *)
Definition incrConverted : M Core unit :=
  updLocals (fun l => {| converted := S (converted l);
                         errors := errors l;
                         slugsGenerated := slugsGenerated l |}).

(** [slugsGenerated.push(slug)] *)
Definition pushSlug (slug : jsstring) : M Core unit :=
  updLocals (fun l => {| converted := converted l;
                         errors := errors l;
                         slugsGenerated := slugsGenerated l ++ [slug] |}).

(** *** [scanForDocuments] *)

Definition typeFilterOf : option jsstring :=
  if nonEmpty (selectedType cfg) then Some (selectedType cfg) else None.

Definition searchFilterOf : option jsstring :=
  if nonEmpty (searchQuery cfg) then Some (searchQuery cfg) else None.

Definition structuredQuery : Query :=
  QScan typeFilterOf searchFilterOf (maxDocuments cfg) (slugField cfg).

Definition scanQuery : Query :=
  if useCustomQuery cfg && nonEmpty (customGroqQuery cfg)
  then QCustom (customGroqQuery cfg)
  else structuredQuery.

(** The callback of [docs.filter]. *)
Definition hasSlugOf (doc : Document) : JsValue :=
  optCurrent (getProp doc (slugField cfg)).

Definition hasSourceOf (doc : Document) : JsValue :=
  jsOr (jsOr (getProp doc (sourceField cfg)) (getProp doc (lit "title")))
       (getProp doc (lit "name")).

Definition needsConversion (doc : Document) : bool :=
  let hasSlug := hasSlugOf doc in
  let hasSource := hasSourceOf doc in
  if replaceExisting cfg then truthy hasSource
  else truthy (jsAnd hasSource (JBool (negb (truthy hasSlug)))).

Definition emit (e : UiEvent) : M St unit :=
  modify (fun s => {| ui := ui s ++ [e]; core := core s |}).

(** A computation on the core, run inside the component. *)
Definition onCore {A} (m : M Core A) : M St A :=
  fun s =>
    let (r, c) := m (core s) in (r, {| ui := ui s; core := c |}).

(** [docs.filter(...)]: only an array has the method. *)
Definition filterDocs (r : FetchResult) : Result (list Document) :=
  match r with
  | Docs l => Ok (filter needsConversion l)
  | Single (Some _) => Throw (ThrownError (lit "docs.filter is not a function"))
  | Single None =>
      Throw (ThrownError (lit "Cannot read properties of null (reading 'filter')"))
  end.

Definition foundMessage (n : nat) : jsstring :=
  lit "Found " ++ decimal (Z.of_nat n) ++ lit " documents that need slug conversion".

Definition scanForDocuments : M St unit :=
  emit (SetIsScanning true) ;;
  emit (SetMessage (lit "Scanning for documents...")) ;;
  tryCatch
    (docs <- onCore (clientFetch scanQuery) ;;
     emit (SetDocuments docs) ;;
     needs <- liftResult (filterDocs docs) ;;
     emit (SetDocumentsToConvert needs) ;;
     emit (SetMessage (foundMessage (List.length needs))))
    (fun error =>
       let errorMsg := errorMessage error (lit "Scan failed") in
       emit (SetMessage (lit "Scan error: " ++ errorMsg)) ;;
       emit (OnError errorMsg)) ;;
  emit (SetIsScanning false).

(** *** [convertToSlugs] *)

(** [doc[sourceField] || doc.title || doc.name || doc._id] *)
Definition sourceTextOf (doc : Document) : JsValue :=
  jsOr (jsOr (jsOr (getProp doc (sourceField cfg)) (getProp doc (lit "title")))
             (getProp doc (lit "name")))
       (JString (_id doc)).

(** [generateSlug] applied to a value of type [any]: a falsy value gives
    the empty slug, and a truthy value that is not a string has no
    [toLowerCase] to call. *)
Definition generateSlugOf (v : JsValue) : Result jsstring :=
  match v with
  | JString s => Ok (generateSlug tbl cfg s)
  | _ => if truthy v
         then Throw (ThrownError (lit "text.toLowerCase is not a function"))
         else Ok []
  end.

Definition probeQuery (doc : Document) (newSlug : jsstring) : Query :=
  QProbe (_type doc) (slugField cfg) newSlug (_id doc).

Definition slugPatch (doc : Document) (finalSlug : jsstring) : Patch :=
  {| patchId := _id doc; patchField := slugField cfg;
     patchValue := slugValue finalSlug |}.

(** The body of the inner [try]. *)
Definition convertDocument (doc : Document) : M Core unit :=
  newSlug <- liftResult (generateSlugOf (sourceTextOf doc)) ;;
  if negb (nonEmpty newSlug) then
    pushError (lit "Failed to generate slug for " ++ _id doc
               ++ lit ": no source text found")
  else
    existingDoc <- clientFetch (probeQuery doc newSlug) ;;
    finalSlug <-
      (if fetchTruthy existingDoc
       then now <- dateNow ;; ret (newSlug ++ [hyphen] ++ decimal now)
       else ret newSlug) ;;
    (if negb (dryRun cfg) then clientCommit (slugPatch doc finalSlug)
     else ret tt) ;;
    incrConverted ;;
    pushSlug finalSlug.

Definition failedMessage (doc : Document) (error : Thrown) : jsstring :=
  lit "Failed to convert " ++ _id doc ++ lit ": "
  ++ errorMessage error (lit "Conversion failed").

(** One turn of [for (const doc of batch)]. *)
Definition processDocument (doc : Document) : M Core unit :=
  tryCatch (convertDocument doc)
           (fun error => pushError (failedMessage doc error)).

Definition progressMessage (n : nat) (total : nat) : jsstring :=
  (if dryRun cfg then lit "Would convert" else lit "Converted")
  ++ lit " " ++ decimal (Z.of_nat n) ++ lit "/" ++ decimal (Z.of_nat total)
  ++ lit " documents...".

Definition completeMessage (n : nat) : jsstring :=
  (if dryRun cfg then lit "Dry run complete" else lit "Conversion complete")
  ++ lit ": " ++ decimal (Z.of_nat n) ++ lit " documents processed".

Section Run.
Variable documentsToConvert : list Document.

(** One turn of the outer [for]: the batch, then the progress message. *)
Definition batchStep (i : Z) : M St unit :=
  onCore (forEach processDocument
            (slice documentsToConvert i (i + batchSize cfg))) ;;
  (fun s =>
     emit (SetMessage (progressMessage (converted (locals (core s)))
                                       (List.length documentsToConvert))) s).

(** [for (let i = 0; i < documentsToConvert.length; i += batchSize)],
    from [i] on, for a [batchSize] that is an integer.  The loop has no
    bound when [batchSize] is not positive, so it runs on fuel and gives
    [None] when that is spent. *)
Fixpoint batchLoop (fuel : nat) (i : Z) (s : St) : option (Result unit * St) :=
  if i <? Z.of_nat (List.length documentsToConvert) then
    match fuel with
    | O => None
    | S fuel' =>
        match batchStep i s with
        | (Ok _, s') => batchLoop fuel' (i + batchSize cfg) s'
        | (Throw e, s') => Some (Throw e, s')
        end
    end
  else Some (Ok tt, s).

Definition initLocals (s : St) : St :=
  {| ui := ui s;
     core := {| locals := {| converted := 0%nat; errors := [];
                             slugsGenerated := [] |};
                world := world (core s) |} |}.

(** After the loop: the result, the last message and [onComplete]. *)
Definition finish : M St unit :=
  fun s =>
    let result := locals (core s) in
    (emit (SetMessage (completeMessage (converted result))) ;;
     emit (OnComplete result)) s.

Definition conversionFailed (error : Thrown) : M St unit :=
  let errorMsg := errorMessage error (lit "Conversion failed") in
  emit (SetMessage (lit "Conversion error: " ++ errorMsg)) ;;
  emit (OnError errorMsg).

Definition convertToSlugs (fuel : nat) (s : St) : option St :=
  if (List.length documentsToConvert =? 0)%nat then Some s
  else
    let (_, s1) :=
      (emit (SetIsLoading true) ;;
       emit (SetMessage (lit "Converting IDs to slugs..."))) s in
    match batchLoop fuel 0 (initLocals s1) with
    | None => None
    | Some (r, s2) =>
        let (_, s3) :=
          (tryCatch (liftResult r ;; finish) conversionFailed ;;
           emit (SetIsLoading false)) s2 in
        Some s3
    end.
End Run.
End Component.

Arguments Core : clear implicits.
Arguments St : clear implicits.

(** ** An in-memory store client

    A store held as a list of documents, and a client that answers the
    queries of the component over it the way the store's query language
    reads them.  It is what the component is run against below.  Of the
    custom queries it knows only [*], every document; a text match is
    refused. *)

Definition MemStore := list Document.

Definition isStringValue (v : JsValue) (s : jsstring) : bool :=
  match v with
  | JString t => jsEqb t s
  | _ => false
  end.

Definition setAttr (k : jsstring) (v : JsValue) (d : Document) : Document :=
  {| _id := _id d; _type := _type d;
     attrs := (k, v) :: filter (fun kv => negb (jsEqb (fst kv) k)) (attrs d) |}.

(** The projection [{ _id, _type, title, name, field }]. *)
Definition projectDoc (f : jsstring) (d : Document) : Document :=
  {| _id := _id d; _type := _type d;
     attrs := filter (fun kv => jsEqb (fst kv) (lit "title")
                                || jsEqb (fst kv) (lit "name")
                                || jsEqb (fst kv) f) (attrs d) |}.

Definition typeMatches (t : option jsstring) (d : Document) : bool :=
  match t with
  | Some ty => jsEqb (_type d) ty
  | None => true
  end.

Definition probeMatches (ty f slug id : jsstring) (d : Document) : bool :=
  jsEqb (_type d) ty
  && isStringValue (optCurrent (getProp d f)) slug
  && negb (jsEqb (_id d) id).

Definition unsupported : Thrown := ThrownError (lit "unsupported query").

Definition memFetch (q : Query) (st : MemStore) : Result FetchResult :=
  match q with
  | QCustom groq =>
      if jsEqb groq (lit "*") then Ok (Docs st) else Throw unsupported
  | QScan t None n f =>
      Ok (Docs (map (projectDoc f) (firstn (Z.to_nat n) (filter (typeMatches t) st))))
  | QScan _ (Some _) _ _ => Throw unsupported
  | QProbe ty f slug id =>
      Ok (Single (find (probeMatches ty f slug id) st))
  end.

Definition memCommit (p : Patch) (st : MemStore) : Result MemStore :=
  if existsb (fun d => jsEqb (_id d) (patchId p)) st
  then Ok (map (fun d => if jsEqb (_id d) (patchId p)
                         then setAttr (patchField p) (patchValue p) d
                         else d) st)
  else Throw (ThrownError (lit "document not found")).

Definition memClient : SanityClient MemStore :=
  {| fetch := memFetch; commit := memCommit |}.

(** ** The properties of the specification, as predicates *)

(** Only lowercase letters, digits and single hyphens, and no hyphen at
    either end. *)
Fixpoint hasDoubleHyphen (s : jsstring) : bool :=
  match s with
  | [] => false
  | c :: r =>
      match r with
      | c' :: _ => (isHyphen c && isHyphen c') || hasDoubleHyphen r
      | [] => false
      end
  end.

Definition startsWithHyphen (s : jsstring) : bool :=
  match s with
  | c :: _ => isHyphen c
  | [] => false
  end.

Definition endsWithHyphen (s : jsstring) : bool := startsWithHyphen (rev s).

Definition wellFormedSlug (s : jsstring) : bool :=
  forallb isSlugChar s
  && negb (hasDoubleHyphen s)
  && negb (startsWithHyphen s)
  && negb (endsWithHyphen s).

(** A text attribute of the data model: absent, or a string. *)
Definition isTextOrAbsent (v : JsValue) : bool :=
  match v with
  | JUndefined | JNull | JString _ => true
  | _ => false
  end.

(** A slug attribute of the data model: absent, or [{ current?: string }]. *)
Definition isSlugOrAbsent (v : JsValue) : bool :=
  match v with
  | JUndefined | JNull => true
  | JObject props => isTextOrAbsent (lookupProp (lit "current") props)
  | _ => false
  end.

Definition nonEmptyText (v : JsValue) : bool :=
  match v with
  | JString s => nonEmpty s
  | _ => false
  end.

Section DataModel.
Variable cfg : Config.

(** The attributes the scanner reads have the types of the data model. *)
Definition wellTyped (d : Document) : bool :=
  isTextOrAbsent (getProp d (sourceField cfg))
  && isTextOrAbsent (getProp d (lit "title"))
  && isTextOrAbsent (getProp d (lit "name"))
  && isSlugOrAbsent (getProp d (slugField cfg)).

(** Non-empty source text: in the source field, or a title, or a name. *)
Definition hasSourceText (d : Document) : bool :=
  nonEmptyText (getProp d (sourceField cfg))
  || nonEmptyText (getProp d (lit "title"))
  || nonEmptyText (getProp d (lit "name")).

(** The current value of the slug attribute is absent or empty. *)
Definition slugAbsentOrEmpty (d : Document) : bool :=
  match getProp d (slugField cfg) with
  | JUndefined | JNull => true
  | JObject props =>
      match lookupProp (lit "current") props with
      | JUndefined | JNull => true
      | JString s => negb (nonEmpty s)
      | _ => false
      end
  | _ => false
  end.
End DataModel.

(** The configuration with one field changed. *)
Definition withDryRun (b : bool) (c : Config) : Config := {|
  batchSize := batchSize c; dryRun := b; maxDocuments := maxDocuments c;
  selectedType := selectedType c; searchQuery := searchQuery c;
  useCustomQuery := useCustomQuery c; customGroqQuery := customGroqQuery c;
  slugField := slugField c; sourceField := sourceField c;
  slugPrefix := slugPrefix c; slugSuffix := slugSuffix c;
  replaceExisting := replaceExisting c |}.



(** The state [documentsToConvert] and [documents] after a run of events:
    what the last call of the setter gave, or the initial empty array. *)
Fixpoint stateDocumentsToConvert (evs : list UiEvent) : list Document :=
  match evs with
  | [] => []
  | SetDocumentsToConvert l :: r =>
      if existsb (fun e => match e with
                           | SetDocumentsToConvert _ => true
                           | _ => false
                           end) r
      then stateDocumentsToConvert r else l
  | _ :: r => stateDocumentsToConvert r
  end.

Fixpoint stateDocuments (evs : list UiEvent) : FetchResult :=
  match evs with
  | [] => Docs []
  | SetDocuments d :: r =>
      if existsb (fun e => match e with
                           | SetDocuments _ => true
                           | _ => false
                           end) r
      then stateDocuments r else d
  | _ :: r => stateDocuments r
  end.

(** ** The properties of the conversion run, as predicates *)

(** The final slug: the candidate, followed on a collision by a hyphen and
    the reading of the clock. *)
Definition finalSlugFor (newSlug : jsstring) (existingDoc : FetchResult) (now : Z)
  : jsstring :=
  if fetchTruthy existingDoc then newSlug ++ [hyphen] ++ decimal now else newSlug.

Section RunPredicates.
Context {Store : Type}.
Variable client : SanityClient Store.
Variable tbl : CaseTable.
Variable cfg : Config.

(** The component when [convertToSlugs] enters its [try]: loading, the
    first message set, and fresh locals. *)
Definition started (s : St Store) : St Store :=
  {| ui := ui s ++ [SetIsLoading true;
                    SetMessage (lit "Converting IDs to slugs...")];
     core := {| locals := {| converted := 0%nat; errors := [];
                             slugsGenerated := [] |};
                world := world (core s) |} |}.

(** The component when [convertToSlugs] has left its [try] by the end. *)
Definition completed (s : St Store) : St Store :=
  {| ui := ui s ++ [SetMessage (completeMessage cfg (converted (locals (core s))));
                    OnComplete (locals (core s));
                    SetIsLoading false];
     core := core s |}.

(** An exception [e] is raised for document [d], reached in state [c],
    by the uniqueness probe or by the commit of the patch. *)
Inductive raises (d : Document) (c : Core Store) (e : Thrown) : Prop :=
| raises_probe (newSlug : jsstring) :
    generateSlugOf tbl cfg (sourceTextOf cfg d) = Ok newSlug ->
    nonEmpty newSlug = true ->
    fetch client (probeQuery cfg d newSlug) (store (world c)) = Throw e ->
    raises d c e
| raises_commit (newSlug : jsstring) (existingDoc : FetchResult) :
    generateSlugOf tbl cfg (sourceTextOf cfg d) = Ok newSlug ->
    nonEmpty newSlug = true ->
    fetch client (probeQuery cfg d newSlug) (store (world c)) = Ok existingDoc ->
    dryRun cfg = false ->
    commit client
      (slugPatch cfg d
         (finalSlugFor newSlug existingDoc (clock (world c) (reads (world c)))))
      (store (world c)) = Throw e ->
    raises d c e.

(** In the run over the documents [l] from state [c], the commits leave no
    trace: every probe of the run is answered as it is on the store [st0],
    and every commit of the run succeeds. *)
Fixpoint commitsUnseen (st0 : Store) (l : list Document) (c : Core Store) : Prop :=
  match l with
  | [] => True
  | d :: r =>
      match generateSlugOf tbl cfg (sourceTextOf cfg d) with
      | Ok newSlug =>
          nonEmpty newSlug = true ->
          fetch client (probeQuery cfg d newSlug) (store (world c))
          = fetch client (probeQuery cfg d newSlug) st0
          /\ forall existingDoc,
               fetch client (probeQuery cfg d newSlug) (store (world c))
               = Ok existingDoc ->
               exists st',
                 commit client
                   (slugPatch cfg d
                      (finalSlugFor newSlug existingDoc
                         (clock (world c) (reads (world c)))))
                   (store (world c)) = Ok st'
      | Throw _ => True
      end
      /\ commitsUnseen st0 r (snd (processDocument client tbl cfg d c))
  end.
End RunPredicates.

(** ** The results card

    What the render shows of [documentsToConvert]: the badge with their
    number, a row for each of the first ten, the line for the rest, and the
    button that starts the run.  The callback of [map] calls [generateSlug]
    outside any [try], so the render can throw. *)

Record PreviewRow := {
  rowKey : JsValue;
  rowType : jsstring;
  rowLabel : JsValue;
  rowSlug : jsstring
}.

Record ResultsCard := {
  badgeCount : nat;
  previewRows : list PreviewRow;
  moreDocuments : option Z;
  buttonText : jsstring
}.

(** [array.map((x, index) => f(x, index))], for a callback that may throw. *)
Fixpoint mapIndexed {A B} (f : A -> nat -> Result B) (l : list A) (index : nat)
  : Result (list B) :=
  match l with
  | [] => Ok []
  | x :: r =>
      match f x index with
      | Ok y =>
          match mapIndexed f r (S index) with
          | Ok ys => Ok (y :: ys)
          | Throw e => Throw e
          end
      | Throw e => Throw e
      end
  end.

Section Preview.
Variable tbl : CaseTable.
Variable cfg : Config.

(** The callback of [documentsToConvert.slice(0, 10).map]. *)
Definition previewRow (doc : Document) (index : nat) : Result PreviewRow :=
  match generateSlugOf tbl cfg (sourceTextOf cfg doc) with
  | Ok previewSlug =>
      Ok {| rowKey := jsOr (JString (_id doc)) (JNumber (Z.of_nat index));
            rowType := _type doc;
            rowLabel := jsOr (jsOr (getProp doc (lit "title"))
                                   (getProp doc (lit "name")))
                             (JString (_id doc));
            rowSlug := previewSlug |}
  | Throw e => Throw e
  end.

(** [documentsToConvert.length > 0 && (...)] *)
Definition resultsCard (documentsToConvert : list Document)
  : Result (option ResultsCard) :=
  let len := Z.of_nat (List.length documentsToConvert) in
  if 0 <? len then
    match mapIndexed previewRow (slice documentsToConvert 0 10) 0 with
    | Ok rows =>
        Ok (Some {| badgeCount := List.length documentsToConvert;
                    previewRows := rows;
                    moreDocuments := if 10 <? len then Some (len - 10) else None;
                    buttonText := if dryRun cfg then lit "Preview Conversion"
                                  else lit "Convert to Slugs" |})
    | Throw e => Throw e
    end
  else Ok None.
End Preview.

(** ** More predicates *)

Definition withReplaceExisting (b : bool) (c : Config) : Config := {|
  batchSize := batchSize c; dryRun := dryRun c; maxDocuments := maxDocuments c;
  selectedType := selectedType c; searchQuery := searchQuery c;
  useCustomQuery := useCustomQuery c; customGroqQuery := customGroqQuery c;
  slugField := slugField c; sourceField := sourceField c;
  slugPrefix := slugPrefix c; slugSuffix := slugSuffix c;
  replaceExisting := b |}.

(** The state [isScanning] and [message] after a run of events: the last
    value set, or the initial one. *)
Definition stateIsScanning (evs : list UiEvent) : bool :=
  fold_left (fun b e => match e with SetIsScanning x => x | _ => b end) evs false.

Definition stateMessage (evs : list UiEvent) : jsstring :=
  fold_left (fun m e => match e with SetMessage x => x | _ => m end) evs [].

(** A letter or a digit of a finished slug. *)
Definition isAlnum (c : Z) : bool := isLowerAscii c || isDigit c.

(** The text with its ASCII capitals lowered. *)
Definition asciiLower (c : Z) : Z := if isUpperAscii c then c + 32 else c.

Section CallPredicates.
Variable cfg : Config.
Variable docs : list Document.

(** A call the run may make: the probe for a candidate, or the commit of a
    slug value to the slug field of a candidate. *)
Definition callForCandidate (c : Call) : Prop :=
  exists d slug,
    In d docs
    /\ (c = CallFetch (QProbe (_type d) (slugField cfg) slug (_id d))
        \/ c = CallCommit {| patchId := _id d; patchField := slugField cfg;
                             patchValue := slugValue slug |}).
End CallPredicates.

(** ** Sample data *)

(** The default configuration with a prefix and a suffix. *)
Definition withAffixes (p s : jsstring) : Config := {|
  batchSize := 10; dryRun := false; maxDocuments := 1000;
  selectedType := []; searchQuery := [];
  useCustomQuery := false; customGroqQuery := [];
  slugField := lit "slug"; sourceField := lit "title";
  slugPrefix := p; slugSuffix := s;
  replaceExisting := false |}.

Definition dryConfig : Config := withDryRun true defaultConfig.

Definition networkError : Thrown := ThrownError (lit "Network error").

(** A client whose store is out of reach: every call throws. *)
Definition downClient : SanityClient MemStore :=
  {| fetch := fun _ _ => Throw networkError;
     commit := fun _ _ => Throw networkError |}.

(** A world with nothing called yet, whose clock reads [t0], [t0 + 1], ... *)
Definition newWorld (st : MemStore) (t0 : Z) : World MemStore :=
  {| store := st; clock := fun n => t0 + Z.of_nat n; reads := 0; calls := [] |}.

Definition newSt (st : MemStore) (t0 : Z) : St MemStore :=
  {| ui := [];
     core := {| locals := {| converted := 0; errors := []; slugsGenerated := [] |};
                world := newWorld st t0 |} |}.

Definition textDoc (id ty title : string) : Document :=
  {| _id := lit id; _type := lit ty;
     attrs := [(lit "title", JString (lit title))] |}.

Definition sluggedDoc (id ty title slug : string) : Document :=
  {| _id := lit id; _type := lit ty;
     attrs := [(lit "title", JString (lit title));
               (lit "slug", JObject [(lit "current", JString (lit slug))])] |}.

Definition sampleStore : MemStore :=
  [textDoc "a" "post" "Post"; sluggedDoc "b" "post" "Second" "second";
   textDoc "c" "page" ""].

Definition twoPosts : MemStore :=
  [textDoc "a" "post" "Post"; textDoc "b" "post" "Post!"].

(** Two posts whose titles give different slugs. *)
Definition distinctPosts : MemStore :=
  [textDoc "a" "post" "Alpha"; textDoc "b" "post" "Beta"].


(** A post whose title is the number 42; a post with no attribute of its
    own; the default configuration with [constructor] typed in as source
    field. *)
Definition numberTitled : Document :=
  {| _id := lit "n"; _type := lit "post"; attrs := [(lit "title", JNumber 42)] |}.

Definition bareDoc : Document :=
  {| _id := lit "u"; _type := lit "post"; attrs := [] |}.

Definition constructorConfig : Config := {|
  batchSize := 10; dryRun := false; maxDocuments := 1000;
  selectedType := []; searchQuery := [];
  useCustomQuery := false; customGroqQuery := [];
  slugField := lit "slug"; sourceField := lit "constructor";
  slugPrefix := []; slugSuffix := [];
  replaceExisting := false |}.


(** [n] posts, numbered from 1. *)
Definition numberedDoc (n : nat) : Document :=
  {| _id := lit "doc-" ++ decimal (Z.of_nat n); _type := lit "post";
     attrs := [(lit "title", JString (lit "Post " ++ decimal (Z.of_nat n)))] |}.

Definition manyDocs (n : nat) : list Document := map numberedDoc (seq 1 n).

(** * Proofs *)

(** ** Characters *)

Ltac chars :=
  unfold isSlugChar, keptChar, isSeparator, isWordChar, isWhiteSpace,
    isUpperAscii, isLowerAscii, isDigit, isHyphen, inRange, hyphen,
    underscore in *;
  rewrite ?orb_true_iff, ?andb_true_iff, ?orb_false_iff, ?andb_false_iff,
    ?negb_true_iff, ?negb_false_iff,
    ?Z.leb_le, ?Z.leb_gt, ?Z.eqb_eq, ?Z.eqb_neq, ?Z.ltb_lt, ?Z.ltb_ge in *;
  try lia.

Lemma kept_lower_is_slugChar (c : Z) :
  keptChar c = true -> isUpperAscii c = false -> isSeparator c = false ->
  isSlugChar c = true.
Proof. intros Hk Hu Hs. chars. Qed.

Lemma slugChar_not_upper (c : Z) : isSlugChar c = true -> isUpperAscii c = false.
Proof. intros H. chars. Qed.

Lemma slugChar_ascii (c : Z) : isSlugChar c = true -> (c <? 128) = true.
Proof. intros H. chars. Qed.

Lemma slugChar_not_space (c : Z) : isSlugChar c = true -> isWhiteSpace c = false.
Proof. intros H. chars. Qed.

Lemma slugChar_kept (c : Z) : isSlugChar c = true -> keptChar c = true.
Proof. intros H. chars. Qed.

Lemma slugChar_separator (c : Z) :
  isSlugChar c = true -> isSeparator c = isHyphen c.
Proof.
  intros H. destruct (isHyphen c) eqn:E; chars.
Qed.

Lemma hyphen_is_separator (c : Z) : isHyphen c = true -> isSeparator c = true.
Proof. intros H. chars. Qed.

Lemma hyphen_is_slugChar : isSlugChar hyphen = true.
Proof. reflexivity. Qed.

(** ** Prefixes and suffixes *)

Lemma dropWhile_suffix (p : Z -> bool) (s : jsstring) :
  exists pre, s = pre ++ dropWhile p s.
Proof.
  induction s as [|c r IH]; simpl.
  - exists []. reflexivity.
  - destruct (p c).
    + destruct IH as [pre E]. exists (c :: pre). simpl. congruence.
    + exists []. reflexivity.
Qed.

Lemma dropWhileEnd_prefix (p : Z -> bool) (s : jsstring) :
  exists post, s = dropWhileEnd p s ++ post.
Proof.
  unfold dropWhileEnd.
  destruct (dropWhile_suffix p (rev s)) as [pre E].
  exists (rev pre).
  rewrite <- rev_app_distr, <- E, rev_involutive. reflexivity.
Qed.

Lemma dropWhile_head (p : Z -> bool) (s : jsstring) :
  match dropWhile p s with c :: _ => p c = false | [] => True end.
Proof.
  induction s as [|c r IH]; simpl; [exact I|].
  destruct (p c) eqn:E; [exact IH | exact E].
Qed.

Lemma dropWhile_id (p : Z -> bool) (s : jsstring) :
  match s with c :: _ => p c = false | [] => True end -> dropWhile p s = s.
Proof.
  destruct s as [|c r]; simpl; [reflexivity|]. intros ->. reflexivity.
Qed.

Lemma Forall_dropWhile (P : Z -> Prop) (p : Z -> bool) (s : jsstring) :
  Forall P s -> Forall P (dropWhile p s).
Proof.
  intros H. destruct (dropWhile_suffix p s) as [pre E].
  rewrite E in H. apply Forall_app in H. tauto.
Qed.

Lemma Forall_dropWhileEnd (P : Z -> Prop) (p : Z -> bool) (s : jsstring) :
  Forall P s -> Forall P (dropWhileEnd p s).
Proof.
  intros H. destruct (dropWhileEnd_prefix p s) as [post E].
  rewrite E in H. apply Forall_app in H. tauto.
Qed.

(** ** Hyphens *)

Lemma startsWithHyphen_app (a b : jsstring) :
  a <> [] -> startsWithHyphen (a ++ b) = startsWithHyphen a.
Proof. destruct a; [congruence | reflexivity]. Qed.

Lemma endsWithHyphen_snoc (a : jsstring) (c : Z) :
  endsWithHyphen (a ++ [c]) = isHyphen c.
Proof.
  unfold endsWithHyphen. rewrite rev_app_distr. reflexivity.
Qed.

Lemma endsWithHyphen_app (a b : jsstring) :
  b <> [] -> endsWithHyphen (a ++ b) = endsWithHyphen b.
Proof.
  intros Hb. unfold endsWithHyphen. rewrite rev_app_distr.
  apply startsWithHyphen_app. intros E. apply Hb.
  rewrite <- (rev_involutive b), E. reflexivity.
Qed.

Lemma endsWithHyphen_rev (s : jsstring) :
  endsWithHyphen (rev s) = startsWithHyphen s.
Proof. unfold endsWithHyphen. rewrite rev_involutive. reflexivity. Qed.

Lemma hasDoubleHyphen_cons (c : Z) (r : jsstring) :
  hasDoubleHyphen (c :: r) = (isHyphen c && startsWithHyphen r) || hasDoubleHyphen r.
Proof.
  destruct r as [|c' r']; simpl.
  - rewrite andb_false_r. reflexivity.
  - reflexivity.
Qed.

Lemma hasDoubleHyphen_app (a b : jsstring) :
  hasDoubleHyphen (a ++ b)
  = hasDoubleHyphen a || hasDoubleHyphen b
    || (endsWithHyphen a && startsWithHyphen b).
Proof.
  induction a as [|c r IH].
  - simpl. rewrite orb_false_r. reflexivity.
  - change ((c :: r) ++ b) with (c :: (r ++ b)).
    rewrite !hasDoubleHyphen_cons, IH.
    destruct r as [|c' r'].
    + simpl. unfold endsWithHyphen. simpl.
      destruct (isHyphen c), (startsWithHyphen b), (hasDoubleHyphen b); reflexivity.
    + rewrite startsWithHyphen_app by discriminate.
      replace (endsWithHyphen (c :: c' :: r')) with (endsWithHyphen (c' :: r'))
        by (symmetry; apply (endsWithHyphen_app [c]); discriminate).
      destruct (isHyphen c), (startsWithHyphen (c' :: r')),
        (hasDoubleHyphen (c' :: r')), (hasDoubleHyphen b),
        (endsWithHyphen (c' :: r')), (startsWithHyphen b); reflexivity.
Qed.

Lemma hasDoubleHyphen_app_inv (a b : jsstring) :
  hasDoubleHyphen (a ++ b) = false ->
  hasDoubleHyphen a = false /\ hasDoubleHyphen b = false.
Proof.
  rewrite hasDoubleHyphen_app, !orb_false_iff. tauto.
Qed.

(** ** Each step of [generateSlug] *)

Lemma lookupCase_In (tbl : CaseTable) (c : Z) (l : list Z) :
  lookupCase tbl c = Some l -> In (c, l) tbl.
Proof.
  induction tbl as [|[k v] t IH]; simpl; [discriminate|].
  destruct (Z.eqb_spec k c) as [->|_].
  - intros [= ->]. left. reflexivity.
  - intros H. right. exact (IH H).
Qed.

Lemma lowerUnit_no_upper (tbl : CaseTable) (c : Z) :
  caseTableOk tbl = true ->
  Forall (fun x => isUpperAscii x = false) (lowerUnit tbl c).
Proof.
  intros Hok. unfold lowerUnit.
  destruct (isUpperAscii c) eqn:Hu.
  - constructor; [chars | constructor].
  - destruct (c <? 128) eqn:Ha.
    + constructor; [exact Hu | constructor].
    + destruct (lookupCase tbl c) as [l|] eqn:Hl.
      * apply lookupCase_In in Hl.
        unfold caseTableOk in Hok. rewrite forallb_forall in Hok.
        specialize (Hok _ Hl). simpl in Hok. rewrite forallb_forall in Hok.
        apply Forall_forall. intros x Hx.
        apply negb_true_iff. exact (Hok x Hx).
      * constructor; [exact Hu | constructor].
Qed.

Lemma toLowerCase_no_upper (tbl : CaseTable) (s : jsstring) :
  caseTableOk tbl = true ->
  Forall (fun x => isUpperAscii x = false) (toLowerCase tbl s).
Proof.
  intros Hok. unfold toLowerCase.
  induction s as [|c r IH]; simpl.
  - constructor.
  - apply Forall_app. split; [apply lowerUnit_no_upper; exact Hok | exact IH].
Qed.

Lemma removeSpecial_kept (P : Z -> Prop) (s : jsstring) :
  Forall P s ->
  Forall (fun c => keptChar c = true /\ P c) (removeSpecial s).
Proof.
  intros H. apply Forall_forall. intros c Hc.
  apply filter_In in Hc. destruct Hc as [Hin Hk].
  rewrite Forall_forall in H. auto.
Qed.

Lemma collapseSeparators_chars (s : jsstring) :
  Forall (fun c => keptChar c = true /\ isUpperAscii c = false) s ->
  Forall (fun c => isSlugChar c = true) (collapseSeparators s).
Proof.
  induction s as [|c r IH]; intros H; simpl.
  - constructor.
  - inversion H as [|? ? [Hk Hu] Hr]; subst.
    specialize (IH Hr).
    destruct (isSeparator c) eqn:Hs.
    + destruct r as [|c' r'].
      * constructor; [reflexivity | constructor].
      * destruct (isSeparator c'); [exact IH|].
        constructor; [reflexivity | exact IH].
    + constructor; [apply kept_lower_is_slugChar; assumption | exact IH].
Qed.

Lemma not_separator_not_hyphen (c : Z) : isSeparator c = false -> isHyphen c = false.
Proof.
  intros H. destruct (isHyphen c) eqn:E; [|reflexivity].
  apply hyphen_is_separator in E. congruence.
Qed.

Lemma collapseSeparators_single (s : jsstring) :
  hasDoubleHyphen (collapseSeparators s) = false.
Proof.
  induction s as [|c r IH]; [reflexivity|].
  change (collapseSeparators (c :: r)) with
    (if isSeparator c then
       match r with
       | c' :: _ => if isSeparator c' then collapseSeparators r
                    else hyphen :: collapseSeparators r
       | [] => [hyphen]
       end
     else c :: collapseSeparators r).
  destruct (isSeparator c) eqn:Hs.
  - destruct r as [|c' r']; [reflexivity|].
    destruct (isSeparator c') eqn:Hs'; [exact IH|].
    rewrite hasDoubleHyphen_cons, IH, orb_false_r.
    simpl. rewrite Hs'. simpl.
    rewrite (not_separator_not_hyphen _ Hs'). reflexivity.
  - rewrite hasDoubleHyphen_cons, IH, orb_false_r.
    rewrite (not_separator_not_hyphen _ Hs). reflexivity.
Qed.

Lemma stripHyphens_start (s : jsstring) : startsWithHyphen (stripHyphens s) = false.
Proof.
  unfold stripHyphens.
  pose proof (dropWhile_head isHyphen s) as Hh.
  destruct (dropWhileEnd_prefix isHyphen (dropWhile isHyphen s)) as [post E].
  destruct (dropWhileEnd isHyphen (dropWhile isHyphen s)) as [|c z]; [reflexivity|].
  rewrite E in Hh. simpl in *. exact Hh.
Qed.

Lemma stripHyphens_end (s : jsstring) : endsWithHyphen (stripHyphens s) = false.
Proof.
  unfold stripHyphens, dropWhileEnd. rewrite endsWithHyphen_rev.
  pose proof (dropWhile_head isHyphen (rev (dropWhile isHyphen s))) as Hh.
  destruct (dropWhile isHyphen (rev (dropWhile isHyphen s))); [reflexivity | exact Hh].
Qed.

Lemma stripHyphens_single (s : jsstring) :
  hasDoubleHyphen s = false -> hasDoubleHyphen (stripHyphens s) = false.
Proof.
  intros H. unfold stripHyphens.
  destruct (dropWhile_suffix isHyphen s) as [pre E].
  rewrite E in H. apply hasDoubleHyphen_app_inv in H. destruct H as [_ H].
  destruct (dropWhileEnd_prefix isHyphen (dropWhile isHyphen s)) as [post E'].
  rewrite E' in H. apply hasDoubleHyphen_app_inv in H. tauto.
Qed.

Lemma wellFormedSlug_iff (s : jsstring) :
  wellFormedSlug s = true <->
  Forall (fun c => isSlugChar c = true) s /\ hasDoubleHyphen s = false
  /\ startsWithHyphen s = false /\ endsWithHyphen s = false.
Proof.
  unfold wellFormedSlug.
  rewrite !andb_true_iff, !negb_true_iff, forallb_forall, Forall_forall. tauto.
Qed.

Lemma baseSlug_wellFormed (tbl : CaseTable) (text : jsstring) :
  caseTableOk tbl = true -> wellFormedSlug (baseSlug tbl text) = true.
Proof.
  intros Hok. apply wellFormedSlug_iff. unfold baseSlug.
  repeat split.
  - apply Forall_dropWhileEnd, Forall_dropWhile, collapseSeparators_chars.
    apply removeSpecial_kept.
    apply Forall_dropWhileEnd, Forall_dropWhile, toLowerCase_no_upper, Hok.
  - apply stripHyphens_single, collapseSeparators_single.
  - apply stripHyphens_start.
  - apply stripHyphens_end.
Qed.

Lemma wellFormedSlug_join (p b : jsstring) :
  p <> [] -> b <> [] ->
  wellFormedSlug p = true -> wellFormedSlug b = true ->
  wellFormedSlug (p ++ [hyphen] ++ b) = true.
Proof.
  intros Hp Hb Wp Wb.
  apply wellFormedSlug_iff in Wp. apply wellFormedSlug_iff in Wb.
  destruct Wp as (Cp & Dp & Sp & Ep). destruct Wb as (Cb & Db & Sb & Eb).
  apply wellFormedSlug_iff. repeat split.
  - apply Forall_app. split; [exact Cp|].
    constructor; [reflexivity | exact Cb].
  - rewrite hasDoubleHyphen_app, Dp, Ep.
    change ([hyphen] ++ b) with (hyphen :: b).
    rewrite hasDoubleHyphen_cons, Db, Sb. reflexivity.
  - rewrite startsWithHyphen_app by exact Hp. exact Sp.
  - rewrite app_assoc, endsWithHyphen_app by exact Hb. exact Eb.
Qed.

Lemma nonEmpty_true (s : jsstring) : nonEmpty s = true <-> s <> [].
Proof. destruct s; simpl; split; congruence. Qed.

Lemma nonEmpty_false (s : jsstring) : nonEmpty s = false <-> s = [].
Proof. destruct s; simpl; split; congruence. Qed.

(** ** A finished slug is left as it is *)

Lemma toLowerCase_slug (tbl : CaseTable) (s : jsstring) :
  Forall (fun c => isSlugChar c = true) s -> toLowerCase tbl s = s.
Proof.
  unfold toLowerCase. induction 1 as [|c r Hc _ IH]; [reflexivity|].
  cbn [flat_map]. rewrite IH. unfold lowerUnit.
  rewrite (slugChar_not_upper _ Hc), (slugChar_ascii _ Hc). reflexivity.
Qed.

Lemma dropWhile_none (p : Z -> bool) (s : jsstring) :
  Forall (fun c => p c = false) s -> dropWhile p s = s.
Proof. intros H. apply dropWhile_id. destruct H; [exact I | assumption]. Qed.

Lemma dropWhileEnd_none (p : Z -> bool) (s : jsstring) :
  Forall (fun c => p c = false) s -> dropWhileEnd p s = s.
Proof.
  intros H. unfold dropWhileEnd.
  rewrite dropWhile_none by (apply Forall_rev; exact H).
  apply rev_involutive.
Qed.

Lemma trim_slug (s : jsstring) :
  Forall (fun c => isSlugChar c = true) s -> trim s = s.
Proof.
  intros H. unfold trim.
  assert (Hs : Forall (fun c => isWhiteSpace c = false) s).
  { eapply Forall_impl; [|exact H]. apply slugChar_not_space. }
  rewrite (dropWhile_none _ _ Hs). apply dropWhileEnd_none, Hs.
Qed.

Lemma removeSpecial_slug (s : jsstring) :
  Forall (fun c => isSlugChar c = true) s -> removeSpecial s = s.
Proof.
  unfold removeSpecial. induction 1 as [|c r Hc _ IH]; simpl; [reflexivity|].
  rewrite (slugChar_kept _ Hc), IH. reflexivity.
Qed.

Lemma collapseSeparators_slug (s : jsstring) :
  Forall (fun c => isSlugChar c = true) s -> hasDoubleHyphen s = false ->
  collapseSeparators s = s.
Proof.
  induction 1 as [|c r Hc Hr IH]; intros Hd; [reflexivity|].
  rewrite hasDoubleHyphen_cons in Hd. apply orb_false_iff in Hd.
  destruct Hd as [Hcr Hd]. specialize (IH Hd).
  simpl. rewrite (slugChar_separator _ Hc).
  destruct (isHyphen c) eqn:Eh.
  - destruct r as [|c' r']; [chars; congruence|].
    inversion Hr as [|? ? Hc' _]; subst.
    rewrite (slugChar_separator _ Hc').
    simpl in Hcr. rewrite Hcr. rewrite IH.
    f_equal. symmetry. apply Z.eqb_eq. exact Eh.
  - rewrite IH. reflexivity.
Qed.

Lemma stripHyphens_slug (s : jsstring) :
  startsWithHyphen s = false -> endsWithHyphen s = false -> stripHyphens s = s.
Proof.
  intros Hs He. unfold stripHyphens.
  rewrite (dropWhile_id isHyphen s) by (destruct s; [exact I | exact Hs]).
  unfold dropWhileEnd.
  rewrite dropWhile_id; [apply rev_involutive|].
  unfold endsWithHyphen in He. destruct (rev s); [exact I | exact He].
Qed.

Lemma baseSlug_fixed (tbl : CaseTable) (s : jsstring) :
  wellFormedSlug s = true -> baseSlug tbl s = s.
Proof.
  intros W. apply wellFormedSlug_iff in W. destruct W as (C & D & S & E).
  unfold baseSlug.
  rewrite (toLowerCase_slug _ _ C), (trim_slug _ C), (removeSpecial_slug _ C),
    (collapseSeparators_slug _ C D).
  apply stripHyphens_slug; assumption.
Qed.

(** ** The conversion run *)

(** Running one document: the monad and the calls, unfolded. *)
Ltac run_doc :=
  unfold processDocument, convertDocument, tryCatch, bind, liftResult,
    clientFetch, clientCommit, dateNow, pushError, incrConverted, pushSlug,
    updLocals, modify, ret, logCall, setStore; simpl.

Lemma slice_forward {A} (l : list A) (i n : Z) :
  0 <= i -> 0 < n ->
  slice l i (i + n) = firstn (Z.to_nat n) (skipn (Z.to_nat i) l).
Proof.
  intros Hi Hn. unfold slice, clampIndex.
  destruct (Z.ltb_spec i 0) as [?|_]; [lia|].
  destruct (Z.ltb_spec (i + n) 0) as [?|_]; [lia|].
  set (len := Z.of_nat (List.length l)).
  destruct (Z.le_gt_cases len i) as [Hle|Hgt].
  - rewrite !skipn_all2 by lia. rewrite !firstn_nil. reflexivity.
  - replace (Z.to_nat (Z.min i len)) with (Z.to_nat i) by lia.
    destruct (Z.le_gt_cases (i + n) len) as [Hin|Hout].
    + f_equal. lia.
    + replace (Z.to_nat (Z.min (i + n) len - Z.min i len))
        with (List.length (skipn (Z.to_nat i) l)) by (rewrite length_skipn; lia).
      rewrite firstn_all. symmetry. apply firstn_all2.
      rewrite length_skipn. lia.
Qed.

Section PipelineFacts.
Context {Store : Type}.
Variable client : SanityClient Store.
Variable tbl : CaseTable.
Variable cfg : Config.

Lemma processDocument_ok (d : Document) (c : Core Store) :
  fst (processDocument client tbl cfg d c) = Ok tt.
Proof.
  run_doc.
  destruct (generateSlugOf tbl cfg (sourceTextOf cfg d)) as [newSlug|e]; [|reflexivity].
  destruct (nonEmpty newSlug); simpl; [|reflexivity].
  destruct (fetch client _ _) as [r|e]; [|reflexivity].
  destruct (fetchTruthy r); destruct (dryRun cfg); simpl; try reflexivity;
    destruct (commit client _ _); reflexivity.
Qed.

Lemma forEach_cons (d : Document) (l : list Document) (c : Core Store) :
  forEach (processDocument client tbl cfg) (d :: l) c
  = forEach (processDocument client tbl cfg) l
      (snd (processDocument client tbl cfg d c)).
Proof.
  simpl. unfold bind.
  pose proof (processDocument_ok d c) as H.
  destruct (processDocument client tbl cfg d c) as [r c']. simpl in *. subst r. reflexivity.
Qed.

Lemma forEach_ok (l : list Document) (c : Core Store) :
  fst (forEach (processDocument client tbl cfg) l c) = Ok tt.
Proof.
  revert c. induction l as [|d l IH]; intros c; [reflexivity|].
  rewrite forEach_cons. apply IH.
Qed.

Lemma forEach_app (a b : list Document) (c : Core Store) :
  forEach (processDocument client tbl cfg) (a ++ b) c
  = forEach (processDocument client tbl cfg) b
      (snd (forEach (processDocument client tbl cfg) a c)).
Proof.
  revert c. induction a as [|d a IH]; intros c; [reflexivity|].
  change ((d :: a) ++ b) with (d :: (a ++ b)).
  rewrite !forEach_cons. apply IH.
Qed.

Lemma forEach_preserves (P : Core Store -> Prop) :
  (forall d c, P c -> P (snd (processDocument client tbl cfg d c))) ->
  forall l c, P c -> P (snd (forEach (processDocument client tbl cfg) l c)).
Proof.
  intros Hstep l. induction l as [|d l IH]; intros c Hc; [exact Hc|].
  rewrite forEach_cons. apply IH, Hstep, Hc.
Qed.

Section Loop.
Variable docs : list Document.

Lemma batchStep_eq (i : Z) (s : St Store) :
  batchStep client tbl cfg docs i s
  = (Ok tt,
     let c := snd (forEach (processDocument client tbl cfg)
                     (slice docs i (i + batchSize cfg)) (core s)) in
     {| ui := ui s ++ [SetMessage (progressMessage cfg (converted (locals c))
                                     (List.length docs))];
        core := c |}).
Proof.
  unfold batchStep, bind, onCore, emit, modify.
  pose proof (forEach_ok (slice docs i (i + batchSize cfg)) (core s)) as H.
  destruct (forEach (processDocument client tbl cfg) _ (core s)) as [r c]. simpl in *. subst r.
  reflexivity.
Qed.

Lemma batchLoop_done (fuel : nat) (i : Z) (s : St Store) :
  Z.of_nat (List.length docs) <= i ->
  batchLoop client tbl cfg docs fuel i s = Some (Ok tt, s).
Proof.
  intros H. destruct fuel; simpl;
    destruct (Z.ltb_spec i (Z.of_nat (List.length docs))); try lia; reflexivity.
Qed.

Lemma batchLoop_step (fuel : nat) (i : Z) (s : St Store) :
  i < Z.of_nat (List.length docs) ->
  batchLoop client tbl cfg docs (S fuel) i s
  = batchLoop client tbl cfg docs fuel (i + batchSize cfg)
      (snd (batchStep client tbl cfg docs i s)).
Proof.
  intros H. simpl.
  destruct (Z.ltb_spec i (Z.of_nat (List.length docs))); [|lia].
  rewrite batchStep_eq. reflexivity.
Qed.

(** Whatever the fuel, a loop that ends has caught every exception, has
    only set progress messages, and keeps what each document keeps. *)
Lemma batchLoop_some (fuel : nat) :
  forall i s r s',
    batchLoop client tbl cfg docs fuel i s = Some (r, s') ->
    r = Ok tt
    /\ (exists msgs, ui s' = ui s ++ map SetMessage msgs)
    /\ (forall P : Core Store -> Prop,
          (forall d c, P c -> P (snd (processDocument client tbl cfg d c))) ->
          P (core s) -> P (core s')).
Proof.
  induction fuel as [|fuel IH]; intros i s r s' H.
  - simpl in H. destruct (i <? Z.of_nat (List.length docs)); [discriminate|].
    injection H as <- <-. split; [reflexivity|]. split.
    + exists []. simpl. rewrite app_nil_r. reflexivity.
    + auto.
  - destruct (Z.lt_ge_cases i (Z.of_nat (List.length docs))) as [Hlt|Hge].
    + rewrite batchLoop_step in H by exact Hlt.
      apply IH in H. destruct H as (Hr & [msgs Hui] & HP).
      rewrite batchStep_eq in Hui, HP. simpl in Hui, HP.
      split; [exact Hr|]. split.
      * eexists (_ :: msgs). rewrite Hui, <- app_assoc. reflexivity.
      * intros P Hstep Hs. apply HP; [exact Hstep|].
        apply forEach_preserves; assumption.
    + rewrite batchLoop_done in H by exact Hge.
      injection H as <- <-. split; [reflexivity|]. split.
      * exists []. simpl. rewrite app_nil_r. reflexivity.
      * auto.
Qed.

(** With a positive batch size the loop ends, on fuel for one turn per
    batch, having gone through every document from [i] on. *)
Lemma batchLoop_total (fuel : nat) :
  forall i s,
    0 < batchSize cfg -> 0 <= i ->
    Z.of_nat (List.length docs) - i <= Z.of_nat fuel * batchSize cfg ->
    exists s',
      batchLoop client tbl cfg docs fuel i s = Some (Ok tt, s')
      /\ core s' = snd (forEach (processDocument client tbl cfg)
                          (skipn (Z.to_nat i) docs) (core s)).
Proof.
  induction fuel as [|fuel IH]; intros i s Hb Hi Hf.
  - exists s. split; [apply batchLoop_done; lia|].
    rewrite skipn_all2 by lia. reflexivity.
  - destruct (Z.lt_ge_cases i (Z.of_nat (List.length docs))) as [Hlt|Hge].
    + rewrite batchLoop_step by exact Hlt.
      destruct (IH (i + batchSize cfg) (snd (batchStep client tbl cfg docs i s)))
        as (s' & Hrun & Hcore); [exact Hb | lia | nia |].
      exists s'. split; [exact Hrun|].
      rewrite Hcore, batchStep_eq. simpl.
      rewrite slice_forward by assumption.
      rewrite <- forEach_app.
      replace (Z.to_nat (i + batchSize cfg))
        with (Z.to_nat (batchSize cfg) + Z.to_nat i)%nat by lia.
      rewrite <- skipn_skipn, firstn_skipn. reflexivity.
    + exists s. split; [apply batchLoop_done; lia|].
      rewrite skipn_all2 by lia. reflexivity.
Qed.
End Loop.
End PipelineFacts.

(** ** The scan *)

Section ScanFacts.
Context {Store : Type}.
Variable client : SanityClient Store.
Variable cfg : Config.

Lemma scanForDocuments_docs (s : St Store) (docs : list Document) :
  fetch client (scanQuery cfg) (store (world (core s))) = Ok (Docs docs) ->
  scanForDocuments client cfg s
  = (Ok tt,
     {| ui := ui s ++
              [SetIsScanning true;
               SetMessage (lit "Scanning for documents...");
               SetDocuments (Docs docs);
               SetDocumentsToConvert (filter (needsConversion cfg) docs);
               SetMessage (foundMessage
                             (List.length (filter (needsConversion cfg) docs)));
               SetIsScanning false];
        core := {| locals := locals (core s);
                   world := logCall (CallFetch (scanQuery cfg)) (world (core s)) |} |}).
Proof.
  intros H.
  unfold scanForDocuments, tryCatch, bind, onCore, clientFetch, emit, modify,
    liftResult.
  simpl. rewrite H. simpl.
  repeat rewrite <- app_assoc. reflexivity.
Qed.


Lemma needsConversion_spec (d : Document) :
  wellTyped cfg d = true ->
  needsConversion cfg d
  = hasSourceText cfg d && (replaceExisting cfg || slugAbsentOrEmpty cfg d).
Proof.
  unfold wellTyped, needsConversion, hasSourceText, slugAbsentOrEmpty,
    hasSourceOf, hasSlugOf.
  destruct (getProp d (sourceField cfg)) as [| |? |? |sa|?|?];
    destruct (getProp d (lit "title")) as [| |? |? |sb|?|?];
    destruct (getProp d (lit "name")) as [| |? |? |sn|?|?];
    simpl; try discriminate;
    destruct (getProp d (slugField cfg)) as [| |? |? |sg|props|?];
    simpl; try discriminate;
    try (destruct (lookupProp (lit "current") props) as [| |? |? |cur|?|?];
         simpl; try discriminate);
    intros _; destruct (replaceExisting cfg);
    repeat match goal with x : jsstring |- _ => destruct x end; reflexivity.
Qed.
End ScanFacts.

(** ** The whole run *)

Section RunFacts.
Context {Store : Type}.
Variable client : SanityClient Store.
Variable tbl : CaseTable.
Variable cfg : Config.
Variable docs : list Document.

Lemma convertToSlugs_empty (fuel : nat) (s : St Store) :
  docs = [] -> convertToSlugs client tbl cfg docs fuel s = Some s.
Proof. intros ->. reflexivity. Qed.

Lemma convertToSlugs_eq (fuel : nat) (s : St Store) :
  docs <> [] ->
  convertToSlugs client tbl cfg docs fuel s
  = match batchLoop client tbl cfg docs fuel 0 (started s) with
    | Some (_, s2) => Some (completed cfg s2)
    | None => None
    end.
Proof.
  intros Hne. unfold convertToSlugs.
  destruct docs as [|d0 l0]; [congruence|]. simpl List.length. simpl Nat.eqb.
  cbv iota.
  unfold bind at 1, emit at 1 2, modify at 1 2. cbv beta iota.
  match goal with
  | |- context [batchLoop _ _ _ _ _ _ (initLocals ?x)] =>
      replace (initLocals x) with (started s)
        by (unfold initLocals, started; simpl; rewrite <- app_assoc; reflexivity)
  end.
  destruct (batchLoop client tbl cfg (d0 :: l0) fuel 0 (started s))
    as [[r s2]|] eqn:Hloop; [|reflexivity].
  destruct (batchLoop_some client tbl cfg _ _ _ _ _ _ Hloop) as (-> & _ & _).
  unfold completed, tryCatch, bind, liftResult, finish, emit, modify. simpl.
  repeat rewrite <- app_assoc. reflexivity.
Qed.

Lemma convertToSlugs_total (fuel : nat) (s : St Store) :
  docs <> [] ->
  0 < batchSize cfg ->
  Z.of_nat (List.length docs) <= Z.of_nat fuel * batchSize cfg ->
  exists s2,
    convertToSlugs client tbl cfg docs fuel s = Some (completed cfg s2)
    /\ core s2 = snd (forEach (processDocument client tbl cfg) docs (core (started s)))
    /\ exists msgs, ui s2 = ui (started s) ++ map SetMessage msgs.
Proof.
  intros Hne Hb Hf.
  destruct (batchLoop_total client tbl cfg docs fuel 0 (started s))
    as (s2 & Hloop & Hcore); [exact Hb | lia | lia |].
  exists s2. rewrite convertToSlugs_eq, Hloop by exact Hne.
  split; [reflexivity|]. split; [exact Hcore|].
  apply (batchLoop_some client tbl cfg docs fuel 0 (started s) (Ok tt) s2 Hloop).
Qed.


End RunFacts.

(** ** A run that ends *)

Section RunEnds.
Context {Store : Type}.
Variable client : SanityClient Store.
Variable tbl : CaseTable.
Variable cfg : Config.
Variable docs : list Document.

Lemma batchLoop_core (fuel : nat) :
  forall i s r s',
    0 < batchSize cfg -> 0 <= i ->
    batchLoop client tbl cfg docs fuel i s = Some (r, s') ->
    core s' = snd (forEach (processDocument client tbl cfg)
                     (skipn (Z.to_nat i) docs) (core s)).
Proof.
  induction fuel as [|fuel IH]; intros i s r s' Hb Hi H.
  - simpl in H. destruct (Z.ltb_spec i (Z.of_nat (List.length docs))); [discriminate|].
    injection H as _ <-. rewrite skipn_all2 by lia. reflexivity.
  - destruct (Z.lt_ge_cases i (Z.of_nat (List.length docs))) as [Hlt|Hge].
    + rewrite batchLoop_step in H by exact Hlt.
      apply IH in H; [|exact Hb|lia].
      rewrite H, batchStep_eq. simpl.
      rewrite slice_forward by assumption.
      rewrite <- forEach_app.
      replace (Z.to_nat (i + batchSize cfg))
        with (Z.to_nat (batchSize cfg) + Z.to_nat i)%nat by lia.
      rewrite <- skipn_skipn, firstn_skipn. reflexivity.
    + rewrite batchLoop_done in H by exact Hge.
      injection H as _ <-. rewrite skipn_all2 by lia. reflexivity.
Qed.

Lemma batchLoop_stuck (fuel : nat) :
  forall i s,
    batchSize cfg <= 0 -> i < Z.of_nat (List.length docs) ->
    batchLoop client tbl cfg docs fuel i s = None.
Proof.
  induction fuel as [|fuel IH]; intros i s Hb Hi.
  - simpl. destruct (Z.ltb_spec i (Z.of_nat (List.length docs))); [reflexivity | lia].
  - rewrite batchLoop_step by exact Hi. apply IH; [exact Hb | lia].
Qed.

(** A run that ends had a positive batch size and went through every
    document once, in order. *)
Lemma convertToSlugs_ends (fuel : nat) (s s' : St Store) :
  docs <> [] ->
  convertToSlugs client tbl cfg docs fuel s = Some s' ->
  0 < batchSize cfg
  /\ exists s2 msgs,
       s' = completed cfg s2
       /\ core s2 = snd (forEach (processDocument client tbl cfg) docs
                           (core (started s)))
       /\ ui s2 = ui (started s) ++ map SetMessage msgs.
Proof.
  intros Hne H. rewrite convertToSlugs_eq in H by exact Hne.
  destruct (batchLoop client tbl cfg docs fuel 0 (started s)) as [[r s2]|] eqn:Hloop;
    [|discriminate].
  injection H as <-.
  assert (Hb : 0 < batchSize cfg).
  { destruct (Z.lt_ge_cases 0 (batchSize cfg)) as [Hb|Hb]; [exact Hb|].
    rewrite batchLoop_stuck in Hloop; [discriminate | lia |].
    destruct docs; [congruence | simpl; lia]. }
  split; [exact Hb|].
  destruct (batchLoop_some client tbl cfg _ _ _ _ _ _ Hloop) as (_ & [msgs Hui] & _).
  exists s2, msgs. split; [reflexivity|]. split; [|exact Hui].
  apply (batchLoop_core fuel 0 (started s) r s2 Hb); [lia | exact Hloop].
Qed.
End RunEnds.

(** ** One document *)

Section DocumentFacts.
Context {Store : Type}.
Variable client : SanityClient Store.
Variable tbl : CaseTable.
Variable cfg : Config.

Ltac doc_cases d :=
  run_doc;
  destruct (generateSlugOf tbl cfg (sourceTextOf cfg d)) as [newSlug|e];
  [destruct (nonEmpty newSlug); simpl;
   [destruct (fetch client _ _) as [r|e];
    [destruct (fetchTruthy r); destruct (dryRun cfg) eqn:Edry; simpl;
     try destruct (commit client _ _) as [st'|e]; simpl | ] | ] | ].

(** A slug is pushed exactly when the counter goes up. *)
Lemma processDocument_counts (d : Document) (c : Core Store) :
  let l := locals c in
  let l' := locals (snd (processDocument client tbl cfg d c)) in
  (converted l' = S (converted l)
   /\ exists slug, slugsGenerated l' = slugsGenerated l ++ [slug])
  \/ (converted l' = converted l /\ slugsGenerated l' = slugsGenerated l).
Proof.
  doc_cases d; try (right; split; reflexivity);
    left; split; try reflexivity; eexists; reflexivity.
Qed.

Lemma processDocument_invariant (d : Document) (c : Core Store) :
  converted (locals c) = List.length (slugsGenerated (locals c)) ->
  converted (locals (snd (processDocument client tbl cfg d c)))
  = List.length (slugsGenerated (locals (snd (processDocument client tbl cfg d c)))).
Proof.
  intros H.
  destruct (processDocument_counts d c) as [[Hc [slug Hs]] | [Hc Hs]];
    rewrite Hc, Hs, ?length_app; simpl; lia.
Qed.

Lemma processDocument_errors (d : Document) (c : Core Store) (m : jsstring) :
  In m (errors (locals c)) ->
  In m (errors (locals (snd (processDocument client tbl cfg d c)))).
Proof.
  intros H. doc_cases d; try exact H; apply in_or_app; left; exact H.
Qed.

(** In a dry run a document costs no commit and leaves the store alone. *)
Lemma processDocument_dry (d : Document) (c : Core Store) :
  dryRun cfg = true ->
  let w := world c in
  let w' := world (snd (processDocument client tbl cfg d c)) in
  store w' = store w
  /\ exists qs, calls w' = calls w ++ map CallFetch qs.
Proof.
  intros Hdry. doc_cases d; try congruence; split; try reflexivity;
    solve [ exists []; simpl; rewrite app_nil_r; reflexivity
          | eexists [_]; reflexivity ].
Qed.

Lemma processDocument_raises (d : Document) (c : Core Store) (e : Thrown) :
  raises client tbl cfg d c e ->
  let l := locals c in
  let l' := locals (snd (processDocument client tbl cfg d c)) in
  errors l' = errors l ++ [failedMessage d e]
  /\ converted l' = converted l
  /\ slugsGenerated l' = slugsGenerated l.
Proof.
  intros [newSlug Hgen Hne Hfetch | newSlug existing Hgen Hne Hfetch Hdry Hcommit];
    run_doc; unfold finalSlugFor in *; rewrite Hgen; simpl; rewrite Hne; simpl;
    unfold probeQuery in *; rewrite Hfetch; simpl.
  - repeat split.
  - rewrite Hdry; simpl.
    destruct (fetchTruthy existing); simpl in *; rewrite Hcommit; repeat split.
Qed.
End DocumentFacts.

(** ** A dry run beside a real run *)

Section DryRun.
Context {Store : Type}.
Variable client : SanityClient Store.
Variable tbl : CaseTable.
Variable cfg : Config.
Hypothesis cfg_dry : dryRun cfg = true.

Lemma processDocument_unseen (d : Document) (l : list Document) (a b : Core Store) :
  locals a = locals b ->
  clock (world a) = clock (world b) ->
  reads (world a) = reads (world b) ->
  commitsUnseen client tbl (withDryRun false cfg) (store (world a)) (d :: l) b ->
  let a' := snd (processDocument client tbl cfg d a) in
  let b' := snd (processDocument client tbl (withDryRun false cfg) d b) in
  locals a' = locals b'
  /\ clock (world a') = clock (world b')
  /\ reads (world a') = reads (world b')
  /\ store (world a') = store (world a)
  /\ commitsUnseen client tbl (withDryRun false cfg) (store (world a)) l b'.
Proof.
  intros Hl Hc Hr [Hhead Hrest]. cbv zeta.
  split; [|split; [|split; [|split; [|exact Hrest]]]].
  4: { apply (processDocument_dry client tbl cfg d a cfg_dry). }
  all: clear Hrest; revert Hhead; run_doc; rewrite cfg_dry;
    change (generateSlugOf tbl (withDryRun false cfg)
              (sourceTextOf (withDryRun false cfg) d))
      with (generateSlugOf tbl cfg (sourceTextOf cfg d));
    (destruct (generateSlugOf tbl cfg (sourceTextOf cfg d)) as [newSlug|e]; simpl;
     [|intros _; congruence]);
    (destruct (nonEmpty newSlug); simpl; [|intros _; congruence]);
    change (probeQuery (withDryRun false cfg) d newSlug) with (probeQuery cfg d newSlug);
    intros Hhead; destruct (Hhead eq_refl) as [Hsame Hcommit]; clear Hhead;
    rewrite <- Hsame;
    (destruct (fetch client (probeQuery cfg d newSlug) (store (world b))) as [r|e];
     simpl; [|congruence]);
    destruct (Hcommit r eq_refl) as [st' Hst']; revert Hst';
    unfold finalSlugFor, slugPatch; rewrite <- Hc, <- Hr;
    destruct (fetchTruthy r); simpl; intros ->; simpl; congruence.
Qed.

Lemma forEach_unseen (l : list Document) :
  forall a b,
    locals a = locals b ->
    clock (world a) = clock (world b) ->
    reads (world a) = reads (world b) ->
    commitsUnseen client tbl (withDryRun false cfg) (store (world a)) l b ->
    locals (snd (forEach (processDocument client tbl cfg) l a))
    = locals (snd (forEach (processDocument client tbl (withDryRun false cfg)) l b)).
Proof.
  induction l as [|d l IH]; intros a b Hl Hc Hr Hun; [exact Hl|].
  rewrite !forEach_cons.
  destruct (processDocument_unseen d l a b Hl Hc Hr Hun)
    as (Hl' & Hc' & Hr' & Hs' & Hun').
  apply IH; try assumption. rewrite Hs'. exact Hun'.
Qed.
End DryRun.

Lemma stateDocumentsToConvert_app (a : list UiEvent) (l : list Document) (b : list UiEvent) :
  existsb (fun e => match e with SetDocumentsToConvert _ => true | _ => false end) b = false ->
  stateDocumentsToConvert (a ++ SetDocumentsToConvert l :: b) = l.
Proof.
  intros Hb. induction a as [|e a IH]; simpl.
  - rewrite Hb. reflexivity.
  - destruct e; try exact IH.
    rewrite existsb_app. simpl. rewrite orb_true_r. exact IH.
Qed.



(** ** The in-memory client *)

Lemma jsEqb_eq (a b : jsstring) : jsEqb a b = true <-> a = b.
Proof.
  revert b. induction a as [|x a IH]; intros [|y b]; simpl;
    try (split; [discriminate | congruence]); [tauto|].
  rewrite andb_true_iff, Z.eqb_eq, IH. split.
  - intros [-> ->]. reflexivity.
  - intros [= -> ->]. auto.
Qed.

(** What the probe finds is a document of the store, of the type asked for,
    with the slug asked for and another identifier; it finds one whenever
    the store holds one. *)
Lemma memFetch_probe_found (ty f slug id : jsstring) (st : MemStore) (d : Document) :
  memFetch (QProbe ty f slug id) st = Ok (Single (Some d)) ->
  In d st /\ _type d = ty /\ optCurrent (getProp d f) = JString slug /\ _id d <> id.
Proof.
  simpl. intros [= H]. apply find_some in H. destruct H as [Hin Hm].
  unfold probeMatches in Hm.
  rewrite !andb_true_iff, negb_true_iff in Hm. destruct Hm as [[Ht Hs] Hi].
  split; [exact Hin|]. split; [apply jsEqb_eq, Ht|]. split.
  - unfold isStringValue in Hs.
    destruct (optCurrent (getProp d f)); try discriminate.
    f_equal. apply jsEqb_eq, Hs.
  - intros E. apply jsEqb_eq in E. congruence.
Qed.

Lemma memFetch_probe_none (ty f slug id : jsstring) (st : MemStore) :
  memFetch (QProbe ty f slug id) st = Ok (Single None) ->
  forall d, In d st -> probeMatches ty f slug id d = false.
Proof.
  simpl. intros [= H] d Hin. exact (find_none _ _ H d Hin).
Qed.

(** * The claims *)

(** ** The slug generator *)

(** C1, as amended.  When the prefix and the suffix are each empty or
    themselves made of lowercase letters, digits and single hyphens with no
    hyphen at either end, and the text is empty, or normalises to a
    non-empty base, or no affix is configured, the slug returned holds only
    lowercase letters, digits and single hyphens and has no hyphen at
    either end. *)
Theorem generateSlug_wellFormed (tbl : CaseTable) (cfg : Config) (text : jsstring) :
  caseTableOk tbl = true ->
  wellFormedSlug (slugPrefix cfg) = true ->
  wellFormedSlug (slugSuffix cfg) = true ->
  text = [] \/ baseSlug tbl text <> []
    \/ (slugPrefix cfg = [] /\ slugSuffix cfg = []) ->
  wellFormedSlug (generateSlug tbl cfg text) = true.
Proof.
  intros Hok Wp Ws Hcase. unfold generateSlug.
  destruct (nonEmpty text) eqn:Et; simpl; [|reflexivity].
  pose proof (baseSlug_wellFormed tbl text Hok) as Wb.
  assert (Hb : nonEmpty (slugPrefix cfg) = true \/ nonEmpty (slugSuffix cfg) = true ->
               baseSlug tbl text <> []).
  { intros Hne. destruct Hcase as [-> | [Hb | [Ep Es]]].
    - discriminate.
    - exact Hb.
    - rewrite Ep, Es in Hne. simpl in Hne. destruct Hne; discriminate. }
  destruct (nonEmpty (slugPrefix cfg)) eqn:Ep;
    destruct (nonEmpty (slugSuffix cfg)) eqn:Es.
  - apply nonEmpty_true in Ep, Es.
    assert (Hj : wellFormedSlug (slugPrefix cfg ++ [hyphen] ++ baseSlug tbl text) = true)
      by (apply wellFormedSlug_join; auto).
    apply wellFormedSlug_join; auto.
    destruct (slugPrefix cfg); [congruence | discriminate].
  - apply nonEmpty_true in Ep.
    apply wellFormedSlug_join; auto.
  - apply nonEmpty_true in Es.
    apply wellFormedSlug_join; auto.
  - exact Wb.
Qed.

Lemma generateSlug_wellFormed_witness :
  generateSlug sampleCaseTable (withAffixes (lit "blog") (lit "v2")) (lit "Hello, World!")
  = lit "blog-hello-world-v2"
  /\ wellFormedSlug
       (generateSlug sampleCaseTable (withAffixes (lit "blog") (lit "v2"))
          (lit "Hello, World!")) = true.
Proof.
  split; [vm_compute; reflexivity|].
  apply (generateSlug_wellFormed sampleCaseTable
           (withAffixes (lit "blog") (lit "v2")) (lit "Hello, World!")).
  - reflexivity.
  - reflexivity.
  - reflexivity.
  - right. left. vm_compute. discriminate.
Defined.

(** C1, as stated, fails: an affix is put in as it was typed, so a prefix
    with a capital and a space comes out in the slug; and a text that
    normalises to nothing leaves the hyphen of the prefix at the end. *)
Lemma generateSlug_keeps_affix_as_typed :
  generateSlug sampleCaseTable (withAffixes (lit "My Blog") []) (lit "Title")
  = lit "My Blog-title"
  /\ wellFormedSlug
       (generateSlug sampleCaseTable (withAffixes (lit "My Blog") []) (lit "Title"))
     = false
  /\ generateSlug sampleCaseTable (withAffixes (lit "blog") []) (lit "!!!")
     = lit "blog-"
  /\ wellFormedSlug
       (generateSlug sampleCaseTable (withAffixes (lit "blog") []) (lit "!!!"))
     = false.
Proof. vm_compute. repeat split. Qed.

(** C8, as amended.  With no prefix and no suffix configured, the generator
    applied to its own output gives that output back. *)
Theorem generateSlug_idempotent_without_affixes
    (tbl : CaseTable) (cfg : Config) (text : jsstring) :
  caseTableOk tbl = true ->
  slugPrefix cfg = [] -> slugSuffix cfg = [] ->
  generateSlug tbl cfg (generateSlug tbl cfg text) = generateSlug tbl cfg text.
Proof.
  intros Hok Ep Es.
  assert (G : forall t, generateSlug tbl cfg t = if nonEmpty t then baseSlug tbl t else []).
  { intros t. unfold generateSlug. rewrite Ep, Es. simpl.
    destruct (nonEmpty t); reflexivity. }
  rewrite (G text).
  destruct (nonEmpty text); [|reflexivity].
  rewrite G.
  destruct (nonEmpty (baseSlug tbl text)) eqn:Eb.
  - apply baseSlug_fixed, baseSlug_wellFormed, Hok.
  - apply nonEmpty_false in Eb. congruence.
Qed.

Lemma generateSlug_idempotent_without_affixes_witness :
  generateSlug sampleCaseTable defaultConfig
    (generateSlug sampleCaseTable defaultConfig (lit "Hello, World!"))
  = generateSlug sampleCaseTable defaultConfig (lit "Hello, World!").
Proof.
  apply (generateSlug_idempotent_without_affixes sampleCaseTable defaultConfig
           (lit "Hello, World!")); reflexivity.
Defined.

(** C8, as stated, fails: under a prefix the second call puts the prefix
    in again. *)
Lemma generateSlug_prefix_not_idempotent :
  generateSlug [] (withAffixes (lit "blog") []) (lit "Title") = lit "blog-title"
  /\ generateSlug [] (withAffixes (lit "blog") [])
       (generateSlug [] (withAffixes (lit "blog") []) (lit "Title"))
     = lit "blog-blog-title"
  /\ generateSlug [] (withAffixes (lit "blog") [])
       (generateSlug [] (withAffixes (lit "blog") []) (lit "Title"))
     <> generateSlug [] (withAffixes (lit "blog") []) (lit "Title").
Proof. vm_compute. repeat split. discriminate. Qed.

(** ** The scanner *)

(** C2, as amended.  A scanned document whose attributes have the types of
    the data model (source field, title and name each a string or absent,
    the slug attribute absent or an object whose [current] is a string or
    absent) is a conversion candidate exactly when it has non-empty source
    text (in the source field, or a title, or a name) and either
    replace-existing is set or the current value of its slug attribute is
    absent or empty. *)
Theorem scan_selects_candidates {Store : Type} (client : SanityClient Store)
    (cfg : Config) (s : St Store) (docs : list Document) (d : Document) :
  fetch client (scanQuery cfg) (store (world (core s))) = Ok (Docs docs) ->
  In d docs ->
  wellTyped cfg d = true ->
  In d (stateDocumentsToConvert (ui (snd (scanForDocuments client cfg s))))
  <-> hasSourceText cfg d = true
      /\ (replaceExisting cfg = true \/ slugAbsentOrEmpty cfg d = true).
Proof.
  intros Hfetch Hin Hty.
  rewrite (scanForDocuments_docs client cfg s docs Hfetch). simpl.
  match goal with
  | |- context [ui s ++ ?a :: ?b :: ?c :: ?rest] =>
      change (ui s ++ a :: b :: c :: rest) with (ui s ++ ([a; b; c] ++ rest))
  end.
  rewrite app_assoc, stateDocumentsToConvert_app by reflexivity.
  rewrite filter_In, (needsConversion_spec cfg d Hty).
  rewrite andb_true_iff, orb_true_iff. tauto.
Qed.

Lemma scan_selects_candidates_witness :
  In (sluggedDoc "b" "post" "Second" "second")
     (stateDocumentsToConvert
        (ui (snd (scanForDocuments memClient defaultConfig (newSt sampleStore 0)))))
  <-> hasSourceText defaultConfig (sluggedDoc "b" "post" "Second" "second") = true
      /\ (replaceExisting defaultConfig = true
          \/ slugAbsentOrEmpty defaultConfig (sluggedDoc "b" "post" "Second" "second") = true).
Proof.
  apply (scan_selects_candidates memClient defaultConfig (newSt sampleStore 0) sampleStore).
  - vm_compute. reflexivity.
  - simpl. auto.
  - reflexivity.
Defined.

(** C2, as stated, fails: the filter decides by truthiness.  A post whose
    title is the number 42 is scanned and selected, and so is, with
    [constructor] as source field, a post with no attribute of its own,
    whose [doc[sourceField]] is the function inherited from
    [Object.prototype]; neither has source text. *)
Lemma scan_selects_without_source_text :
  (fetch memClient (scanQuery defaultConfig) [numberTitled] = Ok (Docs [numberTitled])
   /\ In numberTitled
        (stateDocumentsToConvert
           (ui (snd (scanForDocuments memClient defaultConfig
                       (newSt [numberTitled] 0)))))
   /\ hasSourceText defaultConfig numberTitled = false)
  /\ (fetch memClient (scanQuery constructorConfig) [bareDoc] = Ok (Docs [bareDoc])
      /\ In bareDoc
           (stateDocumentsToConvert
              (ui (snd (scanForDocuments memClient constructorConfig
                          (newSt [bareDoc] 0)))))
      /\ hasSourceOf constructorConfig bareDoc = JFunction (lit "constructor")
      /\ hasSourceText constructorConfig bareDoc = false).
Proof.
  split.
  - split; [vm_compute; reflexivity|].
    split; [vm_compute; left; reflexivity|reflexivity].
  - split; [vm_compute; reflexivity|].
    split; [vm_compute; left; reflexivity|].
    split; reflexivity.
Qed.






(** ** The conversion pipeline *)

(** C3.  With a positive batch size and fuel for the run: when the probe or
    the commit raises an exception for a document, that document's turn
    ends with the text [Failed to convert ], the document's identifier, a
    colon and a space, and the message of the error (or [Conversion failed]
    for a thrown value that is no [Error]) pushed on the errors and nothing
    counted; the run goes on through the documents after it and ends in
    [onComplete] with a report that holds that text, and [onError] is not
    called. *)
Theorem failures_are_recorded {Store : Type} (client : SanityClient Store)
    (tbl : CaseTable) (cfg : Config) (pre : list Document) (d : Document)
    (post : list Document) (fuel : nat) (s : St Store) (e : Thrown) :
  0 < batchSize cfg ->
  (List.length (pre ++ d :: post) <= fuel)%nat ->
  let reached :=
    snd (forEach (processDocument client tbl cfg) pre (core (started s))) in
  raises client tbl cfg d reached e ->
  let recorded := snd (processDocument client tbl cfg d reached) in
  let failure :=
    lit "Failed to convert " ++ _id d ++ lit ": "
    ++ match e with
       | ThrownError message => message
       | ThrownValue _ => lit "Conversion failed"
       end in
  errors (locals recorded) = errors (locals reached) ++ [failure]
  /\ converted (locals recorded) = converted (locals reached)
  /\ slugsGenerated (locals recorded) = slugsGenerated (locals reached)
  /\ exists s' msgs,
       convertToSlugs client tbl cfg (pre ++ d :: post) fuel s = Some s'
       /\ core s' = snd (forEach (processDocument client tbl cfg) post recorded)
       /\ In failure (errors (locals (core s')))
       /\ ui s' = ui s
                  ++ [SetIsLoading true;
                      SetMessage (lit "Converting IDs to slugs...")]
                  ++ map SetMessage msgs
                  ++ [SetMessage (completeMessage cfg (converted (locals (core s'))));
                      OnComplete (locals (core s'));
                      SetIsLoading false].
Proof.
  intros Hb Hf reached Hraises recorded failure.
  destruct (processDocument_raises client tbl cfg d reached e Hraises)
    as (Herr & Hconv & Hslugs).
  fold recorded in Herr, Hconv, Hslugs.
  change (failedMessage d e) with failure in Herr.
  split; [exact Herr|]. split; [exact Hconv|]. split; [exact Hslugs|].
  destruct (convertToSlugs_total client tbl cfg (pre ++ d :: post) fuel s)
    as (s2 & Hrun & Hcore & msgs & Hui).
  { destruct pre; discriminate. }
  { exact Hb. }
  { nia. }
  rewrite forEach_app, forEach_cons in Hcore.
  fold reached in Hcore. fold recorded in Hcore.
  exists (completed cfg s2), msgs. split; [exact Hrun|].
  split; [exact Hcore|]. split.
  - cbn [completed core]. rewrite Hcore.
    apply (forEach_preserves client tbl cfg
             (fun c => In failure (errors (locals c)))).
    + intros d' c'. apply processDocument_errors.
    + rewrite Herr. apply in_or_app. right. left. reflexivity.
  - cbn [completed core ui]. rewrite Hui. unfold started. cbn [ui].
    repeat rewrite <- app_assoc. reflexivity.
Qed.

Lemma failures_are_recorded_witness :
  raises downClient [] defaultConfig (textDoc "a" "post" "Post")
    (core (started (newSt [] 0))) networkError
  /\ exists s' msgs,
       convertToSlugs downClient [] defaultConfig
         ([] ++ textDoc "a" "post" "Post" :: [textDoc "b" "post" "Other"]) 2
         (newSt [] 0) = Some s'
       /\ core s'
          = snd (forEach (processDocument downClient [] defaultConfig)
                   [textDoc "b" "post" "Other"]
                   (snd (processDocument downClient [] defaultConfig
                           (textDoc "a" "post" "Post")
                           (core (started (newSt [] 0))))))
       /\ In (lit "Failed to convert a: Network error") (errors (locals (core s')))
       /\ ui s' = ui (newSt [] 0)
                  ++ [SetIsLoading true;
                      SetMessage (lit "Converting IDs to slugs...")]
                  ++ map SetMessage msgs
                  ++ [SetMessage (completeMessage defaultConfig
                                    (converted (locals (core s'))));
                      OnComplete (locals (core s'));
                      SetIsLoading false].
Proof.
  assert (H : raises downClient [] defaultConfig (textDoc "a" "post" "Post")
                (core (started (newSt [] 0))) networkError).
  { apply (raises_probe downClient [] defaultConfig _ _ _ (lit "post"));
      vm_compute; reflexivity. }
  split; [exact H|].
  destruct (failures_are_recorded downClient [] defaultConfig []
              (textDoc "a" "post" "Post") [textDoc "b" "post" "Other"] 2
              (newSt [] 0) networkError) as (_ & _ & _ & Hrun).
  - reflexivity.
  - simpl. lia.
  - exact H.
  - exact Hrun.
Defined.

(** C4, as amended.  In a dry run no call on the client is a commit and the
    store is left as it was.  The converted count and the slugs of its
    report are those of a real run over the same input, from the same store
    and with the same readings of the clock, when in that real run every
    commit succeeds and every probe is answered as it is on the store the
    runs began with; otherwise they can differ. *)
Theorem dry_run_is_read_only {Store : Type} (client : SanityClient Store)
    (tbl : CaseTable) (cfg : Config) (docs : list Document) (fuel : nat)
    (s : St Store) :
  dryRun cfg = true ->
  (0 < batchSize cfg -> (List.length docs <= fuel)%nat ->
   exists sd, convertToSlugs client tbl cfg docs fuel s = Some sd)
  /\ (forall sd,
        convertToSlugs client tbl cfg docs fuel s = Some sd ->
        store (world (core sd)) = store (world (core s))
        /\ (exists qs,
              calls (world (core sd)) = calls (world (core s)) ++ map CallFetch qs)
        /\ (forall sr,
              convertToSlugs client tbl (withDryRun false cfg) docs fuel s = Some sr ->
              commitsUnseen client tbl (withDryRun false cfg)
                (store (world (core s))) docs (core (started s)) ->
              converted (locals (core sd)) = converted (locals (core sr))
              /\ slugsGenerated (locals (core sd)) = slugsGenerated (locals (core sr)))).
Proof.
  intros Hdry.
  destruct docs as [|d0 l0] eqn:Edocs.
  { split.
    - intros _ _. exists s. reflexivity.
    - intros sd [= <-]. split; [reflexivity|]. split.
      + exists []. simpl. rewrite app_nil_r. reflexivity.
      + intros sr [= <-] _. split; reflexivity. }
  rewrite <- Edocs.
  assert (Hne : docs <> []) by (rewrite Edocs; discriminate).
  clear Edocs. split.
  - intros Hb Hf.
    destruct (convertToSlugs_total client tbl cfg docs fuel s Hne Hb) as (s2 & H & _).
    + nia.
    + eauto.
  - intros sd Hd.
    destruct (convertToSlugs_ends client tbl cfg docs fuel s sd Hne Hd)
      as (_ & s2 & msgs & -> & Hcore & _).
    cbn [completed core]. rewrite Hcore.
    assert (HP : store (world (snd (forEach (processDocument client tbl cfg) docs
                                      (core (started s)))))
                 = store (world (core s))
                 /\ exists qs,
                      calls (world (snd (forEach (processDocument client tbl cfg) docs
                                           (core (started s)))))
                      = calls (world (core s)) ++ map CallFetch qs).
    { apply (forEach_preserves client tbl cfg
               (fun c => store (world c) = store (world (core s))
                         /\ exists qs, calls (world c)
                                       = calls (world (core s)) ++ map CallFetch qs)).
      - intros d c (Hs & qs & Hq).
        destruct (processDocument_dry client tbl cfg d c Hdry) as (Hs' & qs' & Hq').
        split; [congruence|].
        exists (qs ++ qs'). rewrite Hq', Hq, map_app, app_assoc. reflexivity.
      - split; [reflexivity|]. exists []. simpl. rewrite app_nil_r. reflexivity. }
    destruct HP as (Hstore & Hcalls).
    split; [exact Hstore|]. split; [exact Hcalls|].
    intros sr Hr Hunseen.
    destruct (convertToSlugs_ends client tbl (withDryRun false cfg) docs fuel s sr
                Hne Hr) as (_ & s3 & msgs' & -> & Hcore' & _).
    cbn [completed core]. rewrite Hcore'.
    rewrite (forEach_unseen client tbl cfg Hdry docs (core (started s))
               (core (started s)) eq_refl eq_refl eq_refl Hunseen).
    split; reflexivity.
Qed.

Lemma dry_run_is_read_only_witness :
  exists sd sr,
    convertToSlugs memClient [] dryConfig distinctPosts 2
      (newSt distinctPosts 1700) = Some sd
    /\ convertToSlugs memClient [] (withDryRun false dryConfig)
         distinctPosts 2 (newSt distinctPosts 1700) = Some sr
    /\ store (world (core sd)) = distinctPosts
    /\ store (world (core sr)) <> distinctPosts
    /\ converted (locals (core sd)) = converted (locals (core sr))
    /\ slugsGenerated (locals (core sd)) = slugsGenerated (locals (core sr)).
Proof.
  destruct (dry_run_is_read_only memClient [] dryConfig distinctPosts 2
              (newSt distinctPosts 1700) eq_refl) as [Hends Hsafe].
  destruct Hends as [sd Hsd]; [reflexivity | simpl; lia |].
  destruct (Hsafe sd Hsd) as (Hstore & _ & Hreport).
  eexists sd, _. split; [exact Hsd|]. split; [vm_compute; reflexivity|].
  split; [exact Hstore|].
  split; [vm_compute; discriminate|].
  apply Hreport; [vm_compute; reflexivity|].
  vm_compute.
  repeat match goal with
         | |- _ /\ _ => split
         | |- _ -> _ => intro
         | |- exists _, _ => eexists
         end; try reflexivity; try exact I.
  all: match goal with
       | H : Ok _ = Ok _ |- _ => injection H as <-; reflexivity
       end.
Defined.

(** C4, as stated, fails.  Two candidates come to the slug [post]: the real
    run writes the first and so finds a collision for the second, the dry
    run writes nothing and reports [post] twice.  And a candidate that the
    store no longer holds is counted by the dry run alone, since only the
    real run's commit is refused. *)
Lemma dry_run_report_differs :
  option_map (fun s => slugsGenerated (locals (core s)))
    (convertToSlugs memClient [] dryConfig twoPosts 1 (newSt twoPosts 1700))
  = Some [lit "post"; lit "post"]
  /\ option_map (fun s => slugsGenerated (locals (core s)))
       (convertToSlugs memClient [] (withDryRun false dryConfig) twoPosts 1
          (newSt twoPosts 1700))
     = Some [lit "post"; lit "post-1700"]
  /\ option_map (fun s => converted (locals (core s)))
       (convertToSlugs memClient [] dryConfig [textDoc "z" "post" "Zed"] 1
          (newSt [] 1700))
     = Some 1%nat
  /\ option_map (fun s => converted (locals (core s)))
       (convertToSlugs memClient [] (withDryRun false dryConfig)
          [textDoc "z" "post" "Zed"] 1 (newSt [] 1700))
     = Some 0%nat.
Proof. vm_compute. repeat split. Qed.

(** C5.  For a document with a non-empty candidate slug, the probe sent is
    the query for a document of the same type, whose slug attribute's
    current value is the candidate and whose identifier is another; when
    the answer is a document the final slug is the candidate, a hyphen and
    the reading of the clock, and otherwise the candidate; that final slug
    is the one committed and reported. *)
Theorem probe_then_disambiguate {Store : Type} (client : SanityClient Store)
    (tbl : CaseTable) (cfg : Config) (d : Document) (c : Core Store)
    (newSlug : jsstring) (existingDoc : FetchResult) :
  generateSlugOf tbl cfg (sourceTextOf cfg d) = Ok newSlug ->
  nonEmpty newSlug = true ->
  let probe := QProbe (_type d) (slugField cfg) newSlug (_id d) in
  fetch client probe (store (world c)) = Ok existingDoc ->
  let finalSlug :=
    if fetchTruthy existingDoc
    then newSlug ++ [hyphen] ++ decimal (clock (world c) (reads (world c)))
    else newSlug in
  let patch := {| patchId := _id d; patchField := slugField cfg;
                  patchValue := slugValue finalSlug |} in
  let c' := snd (processDocument client tbl cfg d c) in
  render probe
  = lit "*[_type == " ++ [quote] ++ _type d ++ [quote] ++ lit " && "
    ++ slugField cfg ++ lit ".current == $slug && _id != $id][0]"
  /\ params probe = [(lit "slug", newSlug); (lit "id", _id d)]
  /\ calls (world c')
     = calls (world c)
       ++ CallFetch probe :: (if dryRun cfg then [] else [CallCommit patch])
  /\ match (if dryRun cfg then Ok (store (world c))
            else commit client patch (store (world c))) with
     | Ok _ =>
         slugsGenerated (locals c') = slugsGenerated (locals c) ++ [finalSlug]
         /\ converted (locals c') = S (converted (locals c))
     | Throw e =>
         errors (locals c') = errors (locals c) ++ [failedMessage d e]
     end.
Proof.
  intros Hgen Hne probe Hfetch finalSlug patch c'.
  split; [reflexivity|]. split; [reflexivity|].
  subst c' patch finalSlug probe.
  run_doc. rewrite Hgen. simpl. rewrite Hne. simpl.
  unfold probeQuery. rewrite Hfetch. simpl.
  destruct (fetchTruthy existingDoc); destruct (dryRun cfg); simpl;
    try (destruct (commit client _ _); simpl);
    repeat rewrite <- app_assoc; repeat split.
Qed.

Lemma probe_then_disambiguate_witness :
  fetch memClient (QProbe (lit "post") (lit "slug") (lit "second") (lit "x"))
    sampleStore
  = Ok (Single (Some (sluggedDoc "b" "post" "Second" "second")))
  /\ calls (world (snd (processDocument memClient [] defaultConfig
                          (textDoc "x" "post" "Second")
                          (core (newSt sampleStore 1700)))))
     = [CallFetch (QProbe (lit "post") (lit "slug") (lit "second") (lit "x"));
        CallCommit {| patchId := lit "x"; patchField := lit "slug";
                      patchValue := slugValue (lit "second-1700") |}].
Proof.
  split; [vm_compute; reflexivity|].
  exact (proj1 (proj2 (proj2
    (probe_then_disambiguate memClient [] defaultConfig
       (textDoc "x" "post" "Second") (core (newSt sampleStore 1700))
       (lit "second") (Single (Some (sluggedDoc "b" "post" "Second" "second")))
       eq_refl eq_refl eq_refl)))).
Defined.



(** C9.  In the report handed to [onComplete] the converted count is the
    length of [slugsGenerated]; a run with a positive batch size and fuel
    for its batches ends in such a report. *)
Theorem converted_counts_slugs {Store : Type} (client : SanityClient Store)
    (tbl : CaseTable) (cfg : Config) (docs : list Document) (fuel : nat)
    (s : St Store) :
  docs <> [] ->
  (0 < batchSize cfg -> (List.length docs <= fuel)%nat ->
   exists s', convertToSlugs client tbl cfg docs fuel s = Some s')
  /\ (forall s', convertToSlugs client tbl cfg docs fuel s = Some s' ->
      exists msgs report,
        ui s' = ui s
                ++ [SetIsLoading true; SetMessage (lit "Converting IDs to slugs...")]
                ++ map SetMessage msgs
                ++ [SetMessage (completeMessage cfg (converted report));
                    OnComplete report; SetIsLoading false]
        /\ converted report = List.length (slugsGenerated report)).
Proof.
  intros Hne. split.
  - intros Hb Hf.
    destruct (convertToSlugs_total client tbl cfg docs fuel s Hne Hb) as (s2 & H & _).
    + nia.
    + eauto.
  - intros s' H. rewrite convertToSlugs_eq in H by exact Hne.
    destruct (batchLoop client tbl cfg docs fuel 0 (started s)) as [[r s2]|] eqn:Hloop;
      [|discriminate].
    injection H as <-.
    destruct (batchLoop_some client tbl cfg _ _ _ _ _ _ Hloop) as (_ & [msgs Hui] & HP).
    exists msgs, (locals (core s2)). split.
    + unfold completed. simpl. rewrite Hui. unfold started. simpl.
      repeat rewrite <- app_assoc. reflexivity.
    + apply (HP (fun c => converted (locals c) = List.length (slugsGenerated (locals c)))).
      * intros d c. apply processDocument_invariant.
      * reflexivity.
Qed.

Lemma converted_counts_slugs_witness :
  (0 < batchSize defaultConfig -> (List.length twoPosts <= 2)%nat ->
   exists s', convertToSlugs memClient [] defaultConfig twoPosts 2 (newSt twoPosts 1700)
              = Some s')
  /\ (forall s', convertToSlugs memClient [] defaultConfig twoPosts 2 (newSt twoPosts 1700)
                 = Some s' ->
      exists msgs report,
        ui s' = ui (newSt twoPosts 1700)
                ++ [SetIsLoading true; SetMessage (lit "Converting IDs to slugs...")]
                ++ map SetMessage msgs
                ++ [SetMessage (completeMessage defaultConfig (converted report));
                    OnComplete report; SetIsLoading false]
        /\ converted report = List.length (slugsGenerated report)).
Proof.
  apply (converted_counts_slugs memClient [] defaultConfig twoPosts 2 (newSt twoPosts 1700)).
  discriminate.
Defined.

(** * Further properties *)

(** ** More of the slug generator *)

Lemma In_dropWhile_keep (p : Z -> bool) (c : Z) (s : jsstring) :
  In c s -> p c = false -> In c (dropWhile p s).
Proof.
  intros Hin Hp. induction s as [|x r IH]; simpl; [exact Hin|].
  destruct (p x) eqn:Ex; [|exact Hin].
  destruct Hin as [->|Hin]; [congruence | exact (IH Hin)].
Qed.

Lemma In_dropWhileEnd_keep (p : Z -> bool) (c : Z) (s : jsstring) :
  In c s -> p c = false -> In c (dropWhileEnd p s).
Proof.
  intros Hin Hp. unfold dropWhileEnd. apply in_rev.
  rewrite rev_involutive. apply In_dropWhile_keep; [|exact Hp].
  apply in_rev in Hin. exact Hin.
Qed.

Lemma In_collapseSeparators_keep (c : Z) (s : jsstring) :
  In c s -> isSeparator c = false -> In c (collapseSeparators s).
Proof.
  intros Hin Hs. induction s as [|x r IH]; [exact Hin|].
  simpl. destruct (isSeparator x) eqn:Ex.
  - destruct Hin as [->|Hin]; [congruence|]. specialize (IH Hin).
    destruct r as [|x' r']; [destruct Hin|].
    destruct (isSeparator x'); [exact IH | right; exact IH].
  - destruct Hin as [->|Hin]; [left; reflexivity | right; exact (IH Hin)].
Qed.

Lemma alnum_survives (c : Z) :
  isAlnum c = true ->
  isWhiteSpace c = false /\ keptChar c = true /\ isSeparator c = false
  /\ isHyphen c = false /\ isSlugChar c = true.
Proof. unfold isAlnum. intros H. repeat split; chars. Qed.

Lemma kept_not_alnum_is_separator (c : Z) :
  keptChar c = true -> isUpperAscii c = false -> isAlnum c = false ->
  isSeparator c = true.
Proof. unfold isAlnum. intros Hk Hu Ha. chars. Qed.

Lemma collapseSeparators_all_separators (s : jsstring) :
  Forall (fun c => isSeparator c = true) s ->
  collapseSeparators s = [] \/ collapseSeparators s = [hyphen].
Proof.
  induction 1 as [|c r Hc Hr IH]; [left; reflexivity|].
  simpl. rewrite Hc. destruct r as [|c' r']; [right; reflexivity|].
  inversion Hr as [|? ? Hc' _]; subst. rewrite Hc'. exact IH.
Qed.

Lemma baseSlug_keeps_alnum (tbl : CaseTable) (text : jsstring) (c : Z) :
  In c (toLowerCase tbl text) -> isAlnum c = true -> In c (baseSlug tbl text).
Proof.
  intros Hin Ha.
  destruct (alnum_survives c Ha) as (Hw & Hk & Hs & Hh & _).
  unfold baseSlug, stripHyphens, trim, removeSpecial.
  apply In_dropWhileEnd_keep; [|exact Hh].
  apply In_dropWhile_keep; [|exact Hh].
  apply In_collapseSeparators_keep; [|exact Hs].
  apply filter_In. split; [|exact Hk].
  apply In_dropWhileEnd_keep; [|exact Hw].
  apply In_dropWhile_keep; [exact Hin | exact Hw].
Qed.

Lemma baseSlug_empty_iff (tbl : CaseTable) (text : jsstring) :
  caseTableOk tbl = true ->
  baseSlug tbl text = []
  <-> forallb (fun c => negb (isAlnum c)) (toLowerCase tbl text) = true.
Proof.
  intros Hok. split.
  - intros Hempty. apply forallb_forall. intros c Hin.
    destruct (isAlnum c) eqn:Ha; [|reflexivity].
    pose proof (baseSlug_keeps_alnum tbl text c Hin Ha) as H.
    rewrite Hempty in H. destruct H.
  - intros Hno. rewrite forallb_forall in Hno.
    assert (Hall : Forall (fun c => isUpperAscii c = false /\ isAlnum c = false)
                     (toLowerCase tbl text)).
    { pose proof (toLowerCase_no_upper tbl text Hok) as Hu.
      rewrite Forall_forall in *. intros c Hin. split; [exact (Hu c Hin)|].
      apply negb_true_iff. exact (Hno c Hin). }
    unfold baseSlug.
    assert (Hsep : Forall (fun c => isSeparator c = true)
                     (removeSpecial (trim (toLowerCase tbl text)))).
    { eapply Forall_impl;
        [|apply removeSpecial_kept, Forall_dropWhileEnd, Forall_dropWhile, Hall].
      intros c (Hk & Hu & Ha). apply kept_not_alnum_is_separator; assumption. }
    destruct (collapseSeparators_all_separators _ Hsep) as [-> | ->]; reflexivity.
Qed.

Lemma toLowerCase_app (tbl : CaseTable) (a b : jsstring) :
  toLowerCase tbl (a ++ b) = toLowerCase tbl a ++ toLowerCase tbl b.
Proof. apply flat_map_app. Qed.

Lemma lowerUnit_asciiLower (tbl : CaseTable) (c : Z) :
  lowerUnit tbl (asciiLower c) = lowerUnit tbl c.
Proof.
  unfold asciiLower, lowerUnit.
  destruct (isUpperAscii c) eqn:Hu; [|rewrite Hu; reflexivity].
  assert (H1 : isUpperAscii (c + 32) = false) by chars.
  assert (H2 : (c + 32 <? 128) = true) by chars.
  rewrite H1, H2. reflexivity.
Qed.

Lemma toLowerCase_asciiLower (tbl : CaseTable) (s : jsstring) :
  toLowerCase tbl (map asciiLower s) = toLowerCase tbl s.
Proof.
  unfold toLowerCase. induction s as [|c r IH]; [reflexivity|].
  simpl. rewrite lowerUnit_asciiLower, IH. reflexivity.
Qed.

Lemma alnum_is_slug (s : jsstring) :
  Forall (fun c => isAlnum c = true) s ->
  Forall (fun c => isSlugChar c = true) s
  /\ Forall (fun c => isSeparator c = false) s.
Proof.
  intros H. split; eapply Forall_impl; try exact H;
    intros c Hc; apply (alnum_survives c Hc).
Qed.

Lemma collapseSeparators_words (a r : jsstring) :
  Forall (fun c => isSeparator c = false) a ->
  collapseSeparators (a ++ r) = a ++ collapseSeparators r.
Proof.
  induction 1 as [|c a' Hc _ IH]; [reflexivity|].
  change ((c :: a') ++ r) with (c :: (a' ++ r)).
  cbn [collapseSeparators]. rewrite Hc, IH. reflexivity.
Qed.

Lemma collapseSeparators_word (a : jsstring) :
  Forall (fun c => isSeparator c = false) a -> collapseSeparators a = a.
Proof.
  intros H. rewrite <- (app_nil_r a) at 1.
  rewrite collapseSeparators_words by exact H. simpl. apply app_nil_r.
Qed.

Lemma dropWhile_app_none (p : Z -> bool) (a b : jsstring) :
  Forall (fun c => p c = false) a -> a <> [] -> dropWhile p (a ++ b) = a ++ b.
Proof.
  intros H Hne. destruct H as [|c a' Hc _]; [congruence|].
  simpl. rewrite Hc. reflexivity.
Qed.

Lemma dropWhileEnd_app_none (p : Z -> bool) (a b : jsstring) :
  Forall (fun c => p c = false) b -> b <> [] -> dropWhileEnd p (a ++ b) = a ++ b.
Proof.
  intros H Hne. unfold dropWhileEnd. rewrite rev_app_distr.
  rewrite dropWhile_app_none.
  - rewrite <- rev_app_distr. apply rev_involutive.
  - apply Forall_rev. exact H.
  - intros E. apply Hne. rewrite <- (rev_involutive b), E. reflexivity.
Qed.

Lemma filter_all (p : Z -> bool) (s : jsstring) :
  Forall (fun c => p c = true) s -> filter p s = s.
Proof.
  induction 1 as [|c r Hc _ IH]; [reflexivity|].
  simpl. rewrite Hc, IH. reflexivity.
Qed.

Lemma generateSlug_without_affixes (tbl : CaseTable) (cfg : Config) (text : jsstring) :
  slugPrefix cfg = [] -> slugSuffix cfg = [] ->
  generateSlug tbl cfg text = if nonEmpty text then baseSlug tbl text else [].
Proof.
  intros Ep Es. unfold generateSlug. rewrite Ep, Es.
  destruct (nonEmpty text); reflexivity.
Qed.

Lemma lowerUnit_plain (tbl : CaseTable) (c : Z) :
  isUpperAscii c = false -> c < 128 -> lowerUnit tbl c = [c].
Proof.
  intros Hu Ha. unfold lowerUnit. rewrite Hu.
  destruct (Z.ltb_spec c 128); [reflexivity | lia].
Qed.

(** X1.  With no prefix and no suffix, the slug is empty exactly when the
    lowercased text holds no letter [a-z] and no digit: that is when the
    run reports "no source text found". *)
Theorem generateSlug_empty_iff (tbl : CaseTable) (cfg : Config) (text : jsstring) :
  caseTableOk tbl = true ->
  slugPrefix cfg = [] -> slugSuffix cfg = [] ->
  generateSlug tbl cfg text = []
  <-> forallb (fun c => negb (isAlnum c)) (toLowerCase tbl text) = true.
Proof.
  intros Hok Ep Es. rewrite generateSlug_without_affixes by assumption.
  destruct text as [|c r]; [simpl; tauto|].
  apply baseSlug_empty_iff, Hok.
Qed.

Lemma generateSlug_empty_iff_witness :
  generateSlug sampleCaseTable defaultConfig (lit "?! --- __ ...") = []
  <-> forallb (fun c => negb (isAlnum c))
        (toLowerCase sampleCaseTable (lit "?! --- __ ...")) = true.
Proof.
  apply (generateSlug_empty_iff sampleCaseTable defaultConfig (lit "?! --- __ ..."));
    reflexivity.
Defined.

(** X2.  A non-empty text that is already a well-formed slug goes
    through the normalisation unchanged; the generator only puts the
    configured prefix and suffix around it. *)
Theorem generateSlug_of_slug (tbl : CaseTable) (cfg : Config) (slug : jsstring) :
  wellFormedSlug slug = true ->
  nonEmpty slug = true ->
  generateSlug tbl cfg slug
  = (if nonEmpty (slugPrefix cfg) then slugPrefix cfg ++ [hyphen] else [])
    ++ slug
    ++ (if nonEmpty (slugSuffix cfg) then [hyphen] ++ slugSuffix cfg else []).
Proof.
  intros W Hne. unfold generateSlug. rewrite Hne. simpl.
  rewrite (baseSlug_fixed tbl slug W).
  destruct (nonEmpty (slugPrefix cfg)); destruct (nonEmpty (slugSuffix cfg));
    simpl; rewrite <- ?app_assoc, ?app_nil_r; reflexivity.
Qed.

Lemma generateSlug_of_slug_witness :
  generateSlug sampleCaseTable (withAffixes (lit "blog") (lit "v2")) (lit "hello-world")
  = lit "blog-hello-world-v2".
Proof.
  apply (generateSlug_of_slug sampleCaseTable (withAffixes (lit "blog") (lit "v2"))
           (lit "hello-world")); reflexivity.
Defined.

(** X3.  Two texts that differ only in the case of their ASCII letters
    get the same slug, whatever the prefix and suffix. *)
Theorem generateSlug_ignores_ascii_case
    (tbl : CaseTable) (cfg : Config) (a b : jsstring) :
  map asciiLower a = map asciiLower b ->
  generateSlug tbl cfg a = generateSlug tbl cfg b.
Proof.
  intros H. unfold generateSlug, baseSlug.
  assert (Hn : nonEmpty a = nonEmpty b).
  { destruct a, b; try reflexivity; discriminate. }
  rewrite Hn, <- (toLowerCase_asciiLower tbl a), H, toLowerCase_asciiLower.
  reflexivity.
Qed.

Lemma generateSlug_ignores_ascii_case_witness :
  generateSlug sampleCaseTable defaultConfig (lit "Hello World")
  = generateSlug sampleCaseTable defaultConfig (lit "hELLO wORLD").
Proof.
  apply (generateSlug_ignores_ascii_case sampleCaseTable defaultConfig
           (lit "Hello World") (lit "hELLO wORLD")).
  reflexivity.
Defined.

(** X4.  Between two words of letters and digits, with no affix
    configured, an ASCII character the first [replace] removes (punctuation
    and symbols) joins the words with nothing between them, while a
    separator (space, underscore, hyphen) puts one hyphen there. *)
Theorem generateSlug_between_words
    (tbl : CaseTable) (cfg : Config) (a b : jsstring) (c : Z) :
  slugPrefix cfg = [] -> slugSuffix cfg = [] ->
  Forall (fun x => isAlnum x = true) a ->
  Forall (fun x => isAlnum x = true) b ->
  c < 128 ->
  (keptChar c = false -> generateSlug tbl cfg (a ++ c :: b) = a ++ b)
  /\ (isSeparator c = true -> a <> [] -> b <> [] ->
      generateSlug tbl cfg (a ++ c :: b) = a ++ hyphen :: b).
Proof.
  intros Ep Es Ha Hb Hc.
  destruct (alnum_is_slug a Ha) as [Sa Na].
  destruct (alnum_is_slug b Hb) as [Sb Nb].
  assert (Wa : Forall (fun x => isWhiteSpace x = false) a)
    by (eapply Forall_impl; [|exact Sa]; apply slugChar_not_space).
  assert (Wb : Forall (fun x => isWhiteSpace x = false) b)
    by (eapply Forall_impl; [|exact Sb]; apply slugChar_not_space).
  assert (Ka : Forall (fun x => keptChar x = true) a)
    by (eapply Forall_impl; [|exact Sa]; apply slugChar_kept).
  assert (Kb : Forall (fun x => keptChar x = true) b)
    by (eapply Forall_impl; [|exact Sb]; apply slugChar_kept).
  assert (Ya : Forall (fun x => isHyphen x = false) a)
    by (eapply Forall_impl; [|exact Na]; apply not_separator_not_hyphen).
  assert (Yb : Forall (fun x => isHyphen x = false) b)
    by (eapply Forall_impl; [|exact Nb]; apply not_separator_not_hyphen).
  assert (Hgen : forall (Hu : isUpperAscii c = false),
             generateSlug tbl cfg (a ++ c :: b)
             = stripHyphens (collapseSeparators
                               (removeSpecial (trim (a ++ c :: b))))).
  { intros Hu. rewrite generateSlug_without_affixes by assumption.
    replace (nonEmpty (a ++ c :: b)) with true by (destruct a; reflexivity).
    unfold baseSlug.
    change (a ++ c :: b) with (a ++ [c] ++ b) at 1.
    rewrite !toLowerCase_app, (toLowerCase_slug tbl a Sa), (toLowerCase_slug tbl b Sb).
    unfold toLowerCase at 1. simpl flat_map.
    rewrite (lowerUnit_plain tbl c Hu Hc). reflexivity. }
  split.
  - intros Hk.
    assert (Hu : isUpperAscii c = false) by chars.
    assert (Hw : isWhiteSpace c = false) by chars.
    rewrite (Hgen Hu). unfold trim.
    assert (Wall : Forall (fun x => isWhiteSpace x = false) (a ++ c :: b))
      by (apply Forall_app; split; [exact Wa | constructor; assumption]).
    rewrite (dropWhile_none _ _ Wall), (dropWhileEnd_none _ _ Wall).
    unfold removeSpecial. rewrite filter_app. simpl. rewrite Hk.
    rewrite (filter_all _ _ Ka), (filter_all _ _ Kb).
    assert (Nall : Forall (fun x => isSeparator x = false) (a ++ b))
      by (apply Forall_app; split; assumption).
    rewrite (collapseSeparators_word _ Nall).
    assert (Yall : Forall (fun x => isHyphen x = false) (a ++ b))
      by (apply Forall_app; split; assumption).
    unfold stripHyphens.
    rewrite (dropWhile_none _ _ Yall). apply dropWhileEnd_none, Yall.
  - intros Hs Hane Hbne.
    assert (Hu : isUpperAscii c = false) by chars.
    assert (Hk : keptChar c = true) by chars.
    rewrite (Hgen Hu). unfold trim.
    rewrite (dropWhile_app_none _ a (c :: b) Wa Hane).
    change (a ++ c :: b) with (a ++ [c] ++ b).
    rewrite app_assoc, (dropWhileEnd_app_none _ (a ++ [c]) b Wb Hbne).
    rewrite <- app_assoc.
    unfold removeSpecial.
    rewrite filter_all
      by (apply Forall_app; split; [exact Ka | constructor; assumption]).
    rewrite (collapseSeparators_words a _ Na).
    destruct b as [|x b']; [congruence|].
    inversion Nb as [|? ? Hx Nb']; subst.
    change ([c] ++ x :: b') with (c :: x :: b').
    cbn [collapseSeparators]. rewrite Hs, Hx.
    fold (collapseSeparators b'). rewrite (collapseSeparators_word b' Nb').
    unfold stripHyphens.
    rewrite (dropWhile_app_none _ a (hyphen :: x :: b') Ya Hane).
    change (a ++ hyphen :: x :: b') with (a ++ [hyphen] ++ (x :: b')).
    rewrite app_assoc. apply dropWhileEnd_app_none; [exact Yb | discriminate].
Qed.

Lemma generateSlug_between_words_witness :
  (keptChar 44 = false ->
   generateSlug sampleCaseTable defaultConfig (lit "rock" ++ 44 :: lit "roll")
   = lit "rock" ++ lit "roll")
  /\ (isSeparator 44 = true -> lit "rock" <> [] -> lit "roll" <> [] ->
      generateSlug sampleCaseTable defaultConfig (lit "rock" ++ 44 :: lit "roll")
      = lit "rock" ++ hyphen :: lit "roll").
Proof.
  apply (generateSlug_between_words sampleCaseTable defaultConfig
           (lit "rock") (lit "roll") 44).
  - reflexivity.
  - reflexivity.
  - repeat constructor.
  - repeat constructor.
  - lia.
Defined.

(** ** More of the conversion run *)

Section MoreRunFacts.
Context {Store : Type}.
Variable client : SanityClient Store.
Variable tbl : CaseTable.
Variable cfg : Config.

Lemma forEach_preserves_in (P : Core Store -> Prop) (l : list Document) :
  (forall d c, In d l -> P c -> P (snd (processDocument client tbl cfg d c))) ->
  forall c, P c -> P (snd (forEach (processDocument client tbl cfg) l c)).
Proof.
  induction l as [|d l IH]; intros Hstep c Hc; [exact Hc|].
  rewrite forEach_cons. apply IH.
  - intros d' c' Hin. apply Hstep. right. exact Hin.
  - apply Hstep; [left; reflexivity | exact Hc].
Qed.

(** What one document does to the locals and to the log of calls. *)
Lemma processDocument_outcome (d : Document) (c : Core Store) :
  let c' := snd (processDocument client tbl cfg d c) in
  exists new,
    calls (world c') = calls (world c) ++ new
    /\ (List.length new <= 2)%nat
    /\ Forall (fun call =>
                 exists slug,
                   call = CallFetch (QProbe (_type d) (slugField cfg) slug (_id d))
                   \/ call = CallCommit {| patchId := _id d;
                                           patchField := slugField cfg;
                                           patchValue := slugValue slug |}) new
    /\ ((converted (locals c') = converted (locals c)
         /\ slugsGenerated (locals c') = slugsGenerated (locals c)
         /\ exists m, errors (locals c') = errors (locals c) ++ [m])
        \/ (exists newSlug final,
              generateSlugOf tbl cfg (sourceTextOf cfg d) = Ok newSlug
              /\ nonEmpty newSlug = true
              /\ (final = newSlug
                  \/ final = newSlug ++ [hyphen]
                             ++ decimal (clock (world c) (reads (world c))))
              /\ converted (locals c') = S (converted (locals c))
              /\ slugsGenerated (locals c') = slugsGenerated (locals c) ++ [final]
              /\ errors (locals c') = errors (locals c)
              /\ (dryRun cfg = false ->
                  In (CallCommit (slugPatch cfg d final)) new))).
Proof.
  run_doc.
  destruct (generateSlugOf tbl cfg (sourceTextOf cfg d)) as [newSlug|e] eqn:Hgen.
  2: { exists []. rewrite app_nil_r. repeat split; simpl; try lia; [constructor|].
       left. repeat split. eexists. reflexivity. }
  destruct (nonEmpty newSlug) eqn:Hne; simpl.
  2: { exists []. rewrite app_nil_r. repeat split; simpl; try lia; [constructor|].
       left. repeat split. eexists. reflexivity. }
  destruct (fetch client _ _) as [r|e]; simpl.
  2: { eexists [_]. repeat split; simpl; try lia.
       - constructor; [|constructor]. eexists. left. reflexivity.
       - left. repeat split. eexists. reflexivity. }
  destruct (fetchTruthy r); destruct (dryRun cfg) eqn:Edry; simpl;
    try (destruct (commit client _ _) as [st'|e]; simpl);
    rewrite <- ?app_assoc; simpl;
    (eexists; split; [reflexivity|]; split; [simpl; lia|]; split;
     [ repeat first
         [ apply Forall_nil
         | apply Forall_cons;
           [eexists; unfold slugPatch, probeQuery;
            first [left; reflexivity | right; reflexivity]|] ]
     | ]).
  - right. exists newSlug. eexists. repeat split; try reflexivity; try exact Hne.
    + right. reflexivity.
    + intros; discriminate.
  - right. exists newSlug. eexists. repeat split; try reflexivity; try exact Hne.
    + right. reflexivity.
    + intros _. simpl. right. left. reflexivity.
  - left. repeat split. eexists. reflexivity.
  - right. exists newSlug. eexists. repeat split; try reflexivity; try exact Hne.
    + left. reflexivity.
    + intros; discriminate.
  - right. exists newSlug. eexists. repeat split; try reflexivity; try exact Hne.
    + left. reflexivity.
    + intros _. simpl. right. left. reflexivity.
  - left. repeat split. eexists. reflexivity.
Qed.

End MoreRunFacts.

Section RunOutcome.
Context {Store : Type}.
Variable client : SanityClient Store.
Variable tbl : CaseTable.
Variable cfg : Config.
Variable docs : list Document.

(** What a stretch [l] of the candidates does to the locals and to the log
    of calls. *)
Lemma forEach_outcome (l : list Document) :
  incl l docs ->
  forall c,
    let c' := snd (forEach (processDocument client tbl cfg) l c) in
    exists new,
      calls (world c') = calls (world c) ++ new
      /\ (List.length new <= 2 * List.length l)%nat
      /\ Forall (callForCandidate cfg docs) new
      /\ (converted (locals c') + List.length (errors (locals c'))
          = converted (locals c) + List.length (errors (locals c)) + List.length l)%nat
      /\ forall slug,
           In slug (slugsGenerated (locals c')) ->
           In slug (slugsGenerated (locals c))
           \/ exists d newSlug,
                In d docs
                /\ generateSlugOf tbl cfg (sourceTextOf cfg d) = Ok newSlug
                /\ nonEmpty newSlug = true
                /\ (slug = newSlug
                    \/ exists t, slug = newSlug ++ [hyphen] ++ decimal t)
                /\ (dryRun cfg = false ->
                    In (CallCommit (slugPatch cfg d slug)) new).
Proof.
  induction l as [|d l IH]; intros Hincl c.
  - exists []. simpl. rewrite app_nil_r. repeat split; try lia; [constructor|].
    intros slug H. left. exact H.
  - cbv zeta. rewrite forEach_cons.
    destruct (processDocument_outcome client tbl cfg d c)
      as (new1 & Hc1 & Hl1 & Hf1 & Hout).
    set (c1 := snd (processDocument client tbl cfg d c)) in *.
    destruct (IH (fun x Hx => Hincl x (or_intror Hx)) c1)
      as (new2 & Hc2 & Hl2 & Hf2 & Hacc & Hslugs).
    assert (Hd : In d docs) by (apply Hincl; left; reflexivity).
    exists (new1 ++ new2).
    split; [rewrite Hc2, Hc1, app_assoc; reflexivity|].
    split; [rewrite length_app; simpl; lia|].
    split.
    { apply Forall_app. split; [|exact Hf2].
      eapply Forall_impl; [|exact Hf1].
      intros call [slug Hcall]. exists d, slug. split; assumption. }
    split.
    { rewrite Hacc. simpl.
      destruct Hout as [(Hcv & _ & m & He) | (ns & fin & _ & _ & _ & Hcv & _ & He & _)];
        rewrite Hcv, He, ?length_app; simpl; lia. }
    intros slug Hin. destruct (Hslugs slug Hin) as [Hold | Hnew].
    + destruct Hout as [(_ & Hs & _) | (ns & fin & Hgen & Hne & Hfin & _ & Hs & _ & Hcm)].
      * left. rewrite <- Hs. exact Hold.
      * rewrite Hs in Hold. apply in_app_or in Hold.
        destruct Hold as [Hold | [<- | []]]; [left; exact Hold|].
        right. exists d, ns. split; [exact Hd|]. split; [exact Hgen|].
        split; [exact Hne|]. split.
        -- destruct Hfin as [-> | ->]; [left; reflexivity | right; eexists; reflexivity].
        -- intros Hdry. apply in_or_app. left. exact (Hcm Hdry).
    + right. destruct Hnew as (d' & ns & Hd' & Hgen & Hne & Hfin & Hcm).
      exists d', ns. repeat split; try assumption.
      intros Hdry. apply in_or_app. right. exact (Hcm Hdry).
Qed.

End RunOutcome.

(** X10.  With a batch size that is a positive integer (and fuel for the
    run), a run over a list of candidates that is not empty ends, and in its
    report, handed to [onComplete], the converted count plus the number of
    errors is the number of candidates: every candidate gives one outcome. *)
Theorem every_candidate_is_accounted_for {Store : Type} (client : SanityClient Store)
    (tbl : CaseTable) (cfg : Config) (docs : list Document) (fuel : nat)
    (s : St Store) :
  docs <> [] ->
  0 < batchSize cfg ->
  (List.length docs <= fuel)%nat ->
  exists s',
    convertToSlugs client tbl cfg docs fuel s = Some s'
    /\ In (OnComplete (locals (core s'))) (ui s')
    /\ (converted (locals (core s')) + List.length (errors (locals (core s')))
        = List.length docs)%nat.
Proof.
  intros Hne Hb Hf.
  destruct (convertToSlugs_total client tbl cfg docs fuel s Hne Hb)
    as (s2 & Hrun & Hcore & _); [nia|].
  exists (completed cfg s2). split; [exact Hrun|]. split.
  - cbn [completed ui core]. apply in_or_app. right. right. left. reflexivity.
  - cbn [completed core]. rewrite Hcore.
    destruct (forEach_outcome client tbl cfg docs docs (incl_refl docs)
                (core (started s))) as (new & _ & _ & _ & Hacc & _).
    rewrite Hacc. reflexivity.
Qed.

Lemma every_candidate_is_accounted_for_witness :
  exists s',
    convertToSlugs downClient [] defaultConfig twoPosts 2 (newSt [] 0) = Some s'
    /\ In (OnComplete (locals (core s'))) (ui s')
    /\ (converted (locals (core s')) + List.length (errors (locals (core s')))
        = 2)%nat.
Proof.
  apply (every_candidate_is_accounted_for downClient [] defaultConfig twoPosts 2
           (newSt [] 0)).
  - discriminate.
  - reflexivity.
  - simpl. lia.
Defined.

(** X11.  Every call a run makes on the client is the probe for a
    candidate or a commit that sets the configured slug field of a
    candidate to a slug value, and a run makes at most two calls for each
    candidate. *)
Theorem run_calls_are_for_candidates {Store : Type} (client : SanityClient Store)
    (tbl : CaseTable) (cfg : Config) (docs : list Document) (fuel : nat)
    (s s' : St Store) :
  convertToSlugs client tbl cfg docs fuel s = Some s' ->
  exists new,
    calls (world (core s')) = calls (world (core s)) ++ new
    /\ Forall (callForCandidate cfg docs) new
    /\ (List.length new <= 2 * List.length docs)%nat.
Proof.
  intros H. destruct docs as [|d0 l0] eqn:Edocs.
  { injection H as <-. exists []. rewrite app_nil_r.
    repeat split; [constructor | simpl; lia]. }
  rewrite <- Edocs in *.
  assert (Hne : docs <> []) by (rewrite Edocs; discriminate).
  destruct (convertToSlugs_ends client tbl cfg docs fuel s s' Hne H)
    as (_ & s2 & msgs & -> & Hcore & _).
  cbn [completed core]. rewrite Hcore.
  destruct (forEach_outcome client tbl cfg docs docs (incl_refl docs)
              (core (started s))) as (new & Hcalls & Hlen & Hfor & _).
  exists new. repeat split; assumption.
Qed.

Lemma run_calls_are_for_candidates_witness :
  exists s' new,
    convertToSlugs memClient [] defaultConfig twoPosts 1 (newSt twoPosts 1700)
    = Some s'
    /\ calls (world (core s')) = calls (world (core (newSt twoPosts 1700))) ++ new
    /\ Forall (callForCandidate defaultConfig twoPosts) new
    /\ (List.length new <= 2 * List.length twoPosts)%nat.
Proof.
  destruct (convertToSlugs memClient [] defaultConfig twoPosts 1
              (newSt twoPosts 1700)) as [s'|] eqn:E;
    [|vm_compute in E; discriminate].
  destruct (run_calls_are_for_candidates memClient [] defaultConfig twoPosts 1
              (newSt twoPosts 1700) s' E) as (new & H).
  exists s', new. split; [reflexivity | exact H].
Defined.

(** X12.  Every slug in the report of a run that ends is the slug
    generated for a candidate, or that slug with a hyphen and a number
    after it, and in a run that is not dry it was sent in a commit for that
    candidate during the run. *)
Theorem reported_slugs_come_from_candidates {Store : Type}
    (client : SanityClient Store) (tbl : CaseTable) (cfg : Config)
    (docs : list Document) (fuel : nat) (s s' : St Store) :
  docs <> [] ->
  convertToSlugs client tbl cfg docs fuel s = Some s' ->
  exists new,
    calls (world (core s')) = calls (world (core s)) ++ new
    /\ forall slug,
         In slug (slugsGenerated (locals (core s'))) ->
         exists d newSlug,
           In d docs
           /\ generateSlugOf tbl cfg (sourceTextOf cfg d) = Ok newSlug
           /\ nonEmpty newSlug = true
           /\ (slug = newSlug \/ exists t, slug = newSlug ++ [hyphen] ++ decimal t)
           /\ (dryRun cfg = false ->
               In (CallCommit {| patchId := _id d; patchField := slugField cfg;
                                 patchValue := slugValue slug |}) new).
Proof.
  intros Hne H.
  destruct (convertToSlugs_ends client tbl cfg docs fuel s s' Hne H)
    as (_ & s2 & msgs & -> & Hcore & _).
  cbn [completed core]. rewrite Hcore.
  destruct (forEach_outcome client tbl cfg docs docs (incl_refl docs)
              (core (started s))) as (new & Hcalls & _ & _ & _ & Hslugs).
  exists new. split; [exact Hcalls|].
  intros slug Hin. destruct (Hslugs slug Hin) as [[] | Hd]. exact Hd.
Qed.

Lemma reported_slugs_come_from_candidates_witness :
  exists s' new,
    convertToSlugs memClient [] defaultConfig twoPosts 1 (newSt twoPosts 1700)
    = Some s'
    /\ slugsGenerated (locals (core s')) = [lit "post"; lit "post-1700"]
    /\ calls (world (core s')) = calls (world (core (newSt twoPosts 1700))) ++ new
    /\ forall slug,
         In slug (slugsGenerated (locals (core s'))) ->
         exists d newSlug,
           In d twoPosts
           /\ generateSlugOf [] defaultConfig (sourceTextOf defaultConfig d)
              = Ok newSlug
           /\ nonEmpty newSlug = true
           /\ (slug = newSlug \/ exists t, slug = newSlug ++ [hyphen] ++ decimal t)
           /\ (dryRun defaultConfig = false ->
               In (CallCommit {| patchId := _id d;
                                 patchField := slugField defaultConfig;
                                 patchValue := slugValue slug |}) new).
Proof.
  destruct (convertToSlugs memClient [] defaultConfig twoPosts 1
              (newSt twoPosts 1700)) as [s'|] eqn:E;
    [|vm_compute in E; discriminate].
  destruct (reported_slugs_come_from_candidates memClient [] defaultConfig
              twoPosts 1 (newSt twoPosts 1700) s') as (new & Hcalls & Hslugs).
  - discriminate.
  - exact E.
  - exists s', new. split; [reflexivity|]. split.
    + vm_compute in E. injection E as <-. reflexivity.
    + split; assumption.
Defined.

(** X13.  With candidates to convert and a batch size of zero or less
    the outer loop does not end, on any fuel: no report is produced. *)
Theorem run_never_ends_without_positive_batch {Store : Type}
    (client : SanityClient Store) (tbl : CaseTable) (cfg : Config)
    (docs : list Document) (fuel : nat) (s : St Store) :
  batchSize cfg <= 0 ->
  docs <> [] ->
  convertToSlugs client tbl cfg docs fuel s = None.
Proof.
  intros Hb Hne. rewrite convertToSlugs_eq by exact Hne.
  rewrite batchLoop_stuck; [reflexivity | exact Hb |].
  destruct docs; [congruence | simpl; lia].
Qed.

Lemma run_never_ends_without_positive_batch_witness :
  convertToSlugs memClient []
    {| batchSize := 0; dryRun := false; maxDocuments := 1000;
       selectedType := []; searchQuery := [];
       useCustomQuery := false; customGroqQuery := [];
       slugField := lit "slug"; sourceField := lit "title";
       slugPrefix := []; slugSuffix := [];
       replaceExisting := false |}
    twoPosts 1000 (newSt twoPosts 0) = None.
Proof.
  apply run_never_ends_without_positive_batch.
  - simpl. lia.
  - discriminate.
Defined.



(** X5.  With a prefix or a suffix configured, a non-empty source text
    never gives an empty slug, whatever it normalises to: the test
    [!newSlug] does not fire and the document goes on to the probe. *)
Theorem affix_defeats_empty_slug_guard {Store : Type} (client : SanityClient Store)
    (tbl : CaseTable) (cfg : Config) (d : Document) (c : Core Store)
    (text : jsstring) :
  sourceTextOf cfg d = JString text ->
  nonEmpty text = true ->
  nonEmpty (slugPrefix cfg) || nonEmpty (slugSuffix cfg) = true ->
  nonEmpty (generateSlug tbl cfg text) = true
  /\ exists rest,
       calls (world (snd (processDocument client tbl cfg d c)))
       = calls (world c)
         ++ CallFetch (QProbe (_type d) (slugField cfg)
                              (generateSlug tbl cfg text) (_id d)) :: rest.
Proof.
  intros Hsrc Hne Haffix.
  assert (Hslug : nonEmpty (generateSlug tbl cfg text) = true).
  { unfold generateSlug. rewrite Hne. simpl.
    destruct (nonEmpty (slugPrefix cfg)) eqn:Ep.
    - destruct (slugPrefix cfg); [discriminate|].
      destruct (nonEmpty (slugSuffix cfg)); reflexivity.
    - simpl in Haffix. rewrite Haffix.
      destruct (baseSlug tbl text); reflexivity. }
  split; [exact Hslug|].
  run_doc. rewrite Hsrc. cbn [generateSlugOf]. simpl. rewrite Hslug. simpl.
  unfold probeQuery.
  destruct (fetch client _ _) as [r|e]; simpl; [|exists []; reflexivity].
  destruct (fetchTruthy r); destruct (dryRun cfg); simpl;
    try (destruct (commit client _ _); simpl);
    rewrite <- ?app_assoc; eexists; reflexivity.
Qed.

Lemma affix_defeats_empty_slug_guard_witness :
  nonEmpty (generateSlug [] (withAffixes (lit "blog") []) (lit "!!!")) = true
  /\ exists rest,
       calls (world (snd (processDocument memClient [] (withAffixes (lit "blog") [])
                            (textDoc "a" "post" "!!!") (core (newSt [] 0)))))
       = calls (world (core (newSt [] 0)))
         ++ CallFetch (QProbe (_type (textDoc "a" "post" "!!!"))
                              (slugField (withAffixes (lit "blog") []))
                              (generateSlug [] (withAffixes (lit "blog") []) (lit "!!!"))
                              (_id (textDoc "a" "post" "!!!"))) :: rest.
Proof.
  apply (affix_defeats_empty_slug_guard memClient [] (withAffixes (lit "blog") [])
           (textDoc "a" "post" "!!!") (core (newSt [] 0)) (lit "!!!"));
    reflexivity.
Defined.

(** X6.  For a document the scanner selects, a run whose source field
    is the one the scan used takes as source text the value the scanner
    tested, so the fall-back to [_id] is not taken; when the attributes have
    the types of the data model that value is a non-empty string and
    [generateSlug] does not throw.  (The source field is form state: changed
    between the scan and the run, it need not name the value tested.) *)
Theorem candidates_have_source_text (tbl : CaseTable) (scanned cfg : Config)
    (d : Document) :
  needsConversion scanned d = true ->
  sourceField cfg = sourceField scanned ->
  sourceTextOf cfg d = hasSourceOf scanned d
  /\ truthy (sourceTextOf cfg d) = true
  /\ (wellTyped scanned d = true ->
      exists text,
        nonEmpty text = true
        /\ sourceTextOf cfg d = JString text
        /\ generateSlugOf tbl cfg (sourceTextOf cfg d)
           = Ok (generateSlug tbl cfg text)).
Proof.
  intros Hneeds Hfield.
  assert (Htruthy : truthy (hasSourceOf scanned d) = true).
  { unfold needsConversion, jsAnd in Hneeds.
    destruct (replaceExisting scanned); [exact Hneeds|].
    destruct (truthy (hasSourceOf scanned d)) eqn:E; [reflexivity|].
    rewrite E in Hneeds. congruence. }
  assert (Heq : sourceTextOf cfg d = hasSourceOf scanned d).
  { unfold sourceTextOf. rewrite Hfield. fold (hasSourceOf scanned d).
    unfold jsOr at 1. rewrite Htruthy. reflexivity. }
  split; [exact Heq|]. split; [rewrite Heq; exact Htruthy|].
  intros Hty. rewrite Heq.
  unfold wellTyped in Hty. rewrite !andb_true_iff in Hty.
  destruct Hty as [[[Ha Hb] Hn] _].
  unfold hasSourceOf, jsOr in *.
  destruct (getProp d (sourceField scanned)) as [| |? |? |sa|?|?]; try discriminate;
    destruct (getProp d (lit "title")) as [| |? |? |sb|?|?]; try discriminate;
    destruct (getProp d (lit "name")) as [| |? |? |sn|?|?]; try discriminate;
    simpl in *; try discriminate;
    repeat match goal with
           | |- context [nonEmpty ?x] => is_var x; destruct x; simpl in *
           end;
    try discriminate;
    eexists; (split; [|split; reflexivity]); first [reflexivity | assumption].
Qed.

Lemma candidates_have_source_text_witness :
  sourceTextOf (withAffixes (lit "blog") []) (textDoc "a" "post" "Post")
  = hasSourceOf defaultConfig (textDoc "a" "post" "Post")
  /\ truthy (sourceTextOf (withAffixes (lit "blog") []) (textDoc "a" "post" "Post"))
     = true
  /\ (wellTyped defaultConfig (textDoc "a" "post" "Post") = true ->
      exists text,
        nonEmpty text = true
        /\ sourceTextOf (withAffixes (lit "blog") []) (textDoc "a" "post" "Post")
           = JString text
        /\ generateSlugOf [] (withAffixes (lit "blog") [])
             (sourceTextOf (withAffixes (lit "blog") []) (textDoc "a" "post" "Post"))
           = Ok (generateSlug [] (withAffixes (lit "blog") []) text)).
Proof.
  apply (candidates_have_source_text [] defaultConfig (withAffixes (lit "blog") [])
           (textDoc "a" "post" "Post")); reflexivity.
Defined.

(** ** More of the scanner *)

Lemma stateDocumentsToConvert_none (b : list UiEvent) :
  existsb (fun e => match e with SetDocumentsToConvert _ => true | _ => false end) b
  = false ->
  stateDocumentsToConvert b = [].
Proof.
  induction b as [|e b IH]; [reflexivity|].
  destruct e; simpl; try exact IH. discriminate.
Qed.

Lemma stateDocumentsToConvert_app_none (a b : list UiEvent) :
  existsb (fun e => match e with SetDocumentsToConvert _ => true | _ => false end) b
  = false ->
  stateDocumentsToConvert (a ++ b) = stateDocumentsToConvert a.
Proof.
  intros Hb. induction a as [|e a IH].
  - simpl. apply stateDocumentsToConvert_none, Hb.
  - destruct e; simpl; try exact IH.
    rewrite existsb_app, Hb, orb_false_r, IH. reflexivity.
Qed.

Lemma stateDocuments_none (b : list UiEvent) :
  existsb (fun e => match e with SetDocuments _ => true | _ => false end) b = false ->
  stateDocuments b = Docs [].
Proof.
  induction b as [|e b IH]; [reflexivity|].
  destruct e; simpl; try exact IH. discriminate.
Qed.

Lemma stateDocuments_app_none (a b : list UiEvent) :
  existsb (fun e => match e with SetDocuments _ => true | _ => false end) b = false ->
  stateDocuments (a ++ b) = stateDocuments a.
Proof.
  intros Hb. induction a as [|e a IH].
  - simpl. apply stateDocuments_none, Hb.
  - destruct e; simpl; try exact IH.
    rewrite existsb_app, Hb, orb_false_r, IH. reflexivity.
Qed.

Lemma scanForDocuments_throw {Store : Type} (client : SanityClient Store)
    (cfg : Config) (s : St Store) (e : Thrown) :
  fetch client (scanQuery cfg) (store (world (core s))) = Throw e ->
  scanForDocuments client cfg s
  = (Ok tt,
     {| ui := ui s ++
              [SetIsScanning true;
               SetMessage (lit "Scanning for documents...");
               SetMessage (lit "Scan error: " ++ errorMessage e (lit "Scan failed"));
               OnError (errorMessage e (lit "Scan failed"));
               SetIsScanning false];
        core := {| locals := locals (core s);
                   world := logCall (CallFetch (scanQuery cfg)) (world (core s)) |} |}).
Proof.
  intros H.
  unfold scanForDocuments, tryCatch, bind, onCore, clientFetch, emit, modify,
    liftResult.
  simpl. rewrite H. simpl.
  repeat rewrite <- app_assoc. reflexivity.
Qed.

(** X8.  When the fetch of a scan throws, [onError] gets the message,
    the status message is "Scan error: " and the message, the scanning flag
    is back to false, and [documents] and [documentsToConvert] keep what the
    scan before left in them. *)
Theorem failed_scan_keeps_previous_lists {Store : Type} (client : SanityClient Store)
    (cfg : Config) (s : St Store) (e : Thrown) :
  fetch client (scanQuery cfg) (store (world (core s))) = Throw e ->
  let after := ui (snd (scanForDocuments client cfg s)) in
  In (OnError (errorMessage e (lit "Scan failed"))) after
  /\ stateMessage after = lit "Scan error: " ++ errorMessage e (lit "Scan failed")
  /\ stateIsScanning after = false
  /\ stateDocuments after = stateDocuments (ui s)
  /\ stateDocumentsToConvert after = stateDocumentsToConvert (ui s).
Proof.
  intros H after. subst after.
  rewrite (scanForDocuments_throw client cfg s e H). cbn [snd ui].
  split; [apply in_or_app; right; simpl; auto|].
  split; [unfold stateMessage; rewrite fold_left_app; reflexivity|].
  split; [unfold stateIsScanning; rewrite fold_left_app; reflexivity|].
  split; [apply stateDocuments_app_none | apply stateDocumentsToConvert_app_none];
    reflexivity.
Qed.

Lemma failed_scan_keeps_previous_lists_witness :
  fetch downClient (scanQuery defaultConfig)
    (store (world (core (snd (scanForDocuments memClient defaultConfig
                                (newSt sampleStore 0))))))
  = Throw networkError
  /\ stateDocumentsToConvert
       (ui (snd (scanForDocuments downClient defaultConfig
                   (snd (scanForDocuments memClient defaultConfig
                           (newSt sampleStore 0))))))
     = [textDoc "a" "post" "Post"].
Proof.
  split; [reflexivity|].
  refine (eq_trans
            (proj2 (proj2 (proj2 (proj2
               (failed_scan_keeps_previous_lists downClient defaultConfig
                  (snd (scanForDocuments memClient defaultConfig
                          (newSt sampleStore 0)))
                  networkError eq_refl))))) _).
  vm_compute. reflexivity.
Defined.

(** X9.  A scan never throws to its caller, makes one call on the
    client, the fetch of its query, leaves the store as it was, and ends
    with the scanning flag false on every path. *)
Theorem scan_only_reads {Store : Type} (client : SanityClient Store)
    (cfg : Config) (s : St Store) :
  let s' := snd (scanForDocuments client cfg s) in
  fst (scanForDocuments client cfg s) = Ok tt
  /\ store (world (core s')) = store (world (core s))
  /\ locals (core s') = locals (core s)
  /\ calls (world (core s')) = calls (world (core s)) ++ [CallFetch (scanQuery cfg)]
  /\ stateIsScanning (ui s') = false.
Proof.
  unfold scanForDocuments, tryCatch, bind, onCore, clientFetch, emit, modify,
    liftResult.
  simpl.
  destruct (fetch client (scanQuery cfg) (store (world (core s)))) as [[l|[d|]]|e];
    simpl; repeat split;
    unfold stateIsScanning; rewrite fold_left_app; reflexivity.
Qed.

Lemma needsConversion_by_flag (cfg : Config) (d : Document) :
  needsConversion (withReplaceExisting true cfg) d = truthy (hasSourceOf cfg d)
  /\ needsConversion (withReplaceExisting false cfg) d
     = truthy (hasSourceOf cfg d) && negb (truthy (hasSlugOf cfg d)).
Proof.
  split; [reflexivity|].
  unfold needsConversion, jsAnd. cbn [replaceExisting withReplaceExisting].
  change (hasSourceOf (withReplaceExisting false cfg) d) with (hasSourceOf cfg d).
  change (hasSlugOf (withReplaceExisting false cfg) d) with (hasSlugOf cfg d).
  destruct (truthy (hasSourceOf cfg d)) eqn:Hs; [reflexivity | exact Hs].
Qed.

(** X7.  The candidates without replace-existing are those with
    replace-existing, less the documents whose slug has a truthy current
    value, in the same order. *)
Theorem replacing_scan_contains_plain_scan (cfg : Config) (docs : list Document) :
  filter (needsConversion (withReplaceExisting false cfg)) docs
  = filter (fun d => negb (truthy (hasSlugOf cfg d)))
      (filter (needsConversion (withReplaceExisting true cfg)) docs).
Proof.
  induction docs as [|d l IH]; [reflexivity|].
  cbn [filter]. rewrite IH.
  destruct (needsConversion_by_flag cfg d) as [-> ->].
  destruct (truthy (hasSourceOf cfg d)); [|reflexivity].
  cbn [filter andb]. reflexivity.
Qed.

(** ** The results card *)

Lemma mapIndexed_length {A B} (f : A -> nat -> Result B) (l : list A) :
  forall i ys, mapIndexed f l i = Ok ys -> List.length ys = List.length l.
Proof.
  induction l as [|x r IH]; intros i ys H; simpl in H.
  - injection H as <-. reflexivity.
  - destruct (f x i) as [y|e]; [|discriminate].
    destruct (mapIndexed f r (S i)) as [ys'|e] eqn:E; [|discriminate].
    injection H as <-. simpl. f_equal. exact (IH _ _ E).
Qed.

Lemma mapIndexed_nth {A B} (f : A -> nat -> Result B) (l : list A) :
  forall i ys k y,
    mapIndexed f l i = Ok ys ->
    nth_error ys k = Some y ->
    exists x, nth_error l k = Some x /\ f x (i + k)%nat = Ok y.
Proof.
  induction l as [|x r IH]; intros i ys k y H Hk; simpl in H.
  - injection H as <-. destruct k; discriminate.
  - destruct (f x i) as [y0|e] eqn:Ef; [|discriminate].
    destruct (mapIndexed f r (S i)) as [ys'|e] eqn:E; [|discriminate].
    injection H as <-. destruct k as [|k]; simpl in Hk.
    + injection Hk as <-. exists x. rewrite Nat.add_0_r. auto.
    + destruct (IH _ _ _ _ E Hk) as (x' & Hx & Hf).
      exists x'. split; [exact Hx|]. rewrite <- Hf. f_equal. lia.
Qed.

Lemma mapIndexed_throws {A B} (f : A -> nat -> Result B) (l : list A) :
  forall i,
    (exists e, mapIndexed f l i = Throw e)
    <-> exists x k, In x l /\ exists e, f x k = Throw e /\ (i <= k)%nat
                    /\ nth_error l (k - i) = Some x.
Proof.
  induction l as [|x r IH]; intros i; simpl.
  - split; [intros [e H]; discriminate | intros (x & k & [] & _)].
  - destruct (f x i) as [y|e] eqn:Ef.
    + destruct (mapIndexed f r (S i)) as [ys|e] eqn:E.
      * split; [intros [e H]; discriminate|].
        intros (x' & k & Hin & e & Hf & Hle & Hnth).
        assert (Hthrow : exists e', mapIndexed f r (S i) = Throw e').
        { apply IH. destruct (Nat.eq_dec k i) as [->|Hki].
          - rewrite Nat.sub_diag in Hnth. simpl in Hnth. injection Hnth as <-.
            congruence.
          - exists x', k. replace (k - i)%nat with (S (k - S i)) in Hnth by lia.
            simpl in Hnth. split; [eapply nth_error_In; exact Hnth|].
            exists e. repeat split; [exact Hf | lia | exact Hnth]. }
        destruct Hthrow as [e' He']. congruence.
      * split; [|intros _; eauto].
        intros _.
        destruct (proj1 (IH (S i)) (ex_intro _ e E))
          as (x' & k & Hin & e' & Hf & Hle & Hnth).
        exists x', k. split; [right; exact Hin|].
        exists e'. repeat split; [exact Hf | lia |].
        replace (k - i)%nat with (S (k - S i)) by lia. exact Hnth.
    + split; [|intros _; eauto].
      intros _. exists x, i. split; [left; reflexivity|].
      exists e. rewrite Nat.sub_diag. auto.
Qed.

Lemma generateSlugOf_throws (tbl : CaseTable) (cfg : Config) (v : JsValue) :
  (exists e, generateSlugOf tbl cfg v = Throw e)
  <-> truthy v = true /\ forall t, v <> JString t.
Proof.
  destruct v; simpl; split;
    try (intros [e H]; discriminate);
    try (intros [H _]; discriminate);
    try (intros [_ H]; exfalso; eapply H; reflexivity);
    try (intros [e H]; split; [|intros t; discriminate]);
    try (intros [H _]; rewrite ?H; eauto);
    try reflexivity.
  - destruct b; [reflexivity | discriminate].
  - destruct (negb (n =? 0)); [reflexivity | discriminate].
Qed.

Lemma previewRow_throws (tbl : CaseTable) (cfg : Config) (d : Document) (k : nat) :
  (exists e, previewRow tbl cfg d k = Throw e)
  <-> exists e, generateSlugOf tbl cfg (sourceTextOf cfg d) = Throw e.
Proof.
  unfold previewRow.
  destruct (generateSlugOf tbl cfg (sourceTextOf cfg d)) as [slug|e].
  - split; intros [e H]; discriminate.
  - split; intros _; eauto.
Qed.

Lemma slice_first_ten {A} (l : list A) : slice l 0 10 = firstn 10 l.
Proof. exact (slice_forward l 0 10 (Z.le_refl 0) eq_refl). Qed.

Lemma nth_error_firstn_Some {A} (n k : nat) (l : list A) (x : A) :
  nth_error (firstn n l) k = Some x -> nth_error l k = Some x.
Proof.
  revert k l. induction n as [|n IH]; intros k l H.
  - destruct k; discriminate.
  - destruct l as [|y l]; [destruct k; discriminate|].
    destruct k as [|k]; [exact H | exact (IH _ _ H)].
Qed.

Lemma In_firstn {A} (n : nat) (l : list A) (x : A) : In x (firstn n l) -> In x l.
Proof.
  revert l. induction n as [|n IH]; intros l H; [destruct H|].
  destruct l as [|y l]; [destruct H|].
  destruct H as [->|H]; [left; reflexivity | right; exact (IH _ H)].
Qed.

Lemma resultsCard_some (tbl : CaseTable) (cfg : Config) (docs : list Document)
    (card : ResultsCard) :
  resultsCard tbl cfg docs = Ok (Some card) ->
  docs <> []
  /\ mapIndexed (previewRow tbl cfg) (firstn 10 docs) 0 = Ok (previewRows card)
  /\ badgeCount card = List.length docs
  /\ moreDocuments card
     = (if 10 <? Z.of_nat (List.length docs)
        then Some (Z.of_nat (List.length docs) - 10) else None).
Proof.
  unfold resultsCard. rewrite slice_first_ten.
  destruct (Z.ltb_spec 0 (Z.of_nat (List.length docs))) as [Hpos|Hzero];
    [|discriminate].
  destruct (mapIndexed (previewRow tbl cfg) (firstn 10 docs) 0) as [rows|e];
    [|discriminate].
  intros [= <-]. simpl. repeat split.
  intros ->. simpl in Hpos. lia.
Qed.

(** X15.  The results card shows the number of candidates in its badge,
    a row for each of the first ten, and the line for the rest exactly when
    there are more than ten, with the number left over: rows and the rest
    add up to all candidates. *)
Theorem results_card_counts (tbl : CaseTable) (cfg : Config) (docs : list Document)
    (card : ResultsCard) :
  resultsCard tbl cfg docs = Ok (Some card) ->
  badgeCount card = List.length docs
  /\ List.length (previewRows card) = Nat.min 10 (List.length docs)
  /\ Z.of_nat (List.length (previewRows card))
     + match moreDocuments card with Some k => k | None => 0 end
     = Z.of_nat (List.length docs)
  /\ (moreDocuments card = None <-> (List.length docs <= 10)%nat).
Proof.
  intros H. destruct (resultsCard_some tbl cfg docs card H) as (_ & Hrows & Hb & Hm).
  apply mapIndexed_length in Hrows. rewrite length_firstn in Hrows.
  split; [exact Hb|]. split; [exact Hrows|].
  rewrite Hm, Hrows.
  destruct (Z.ltb_spec 10 (Z.of_nat (List.length docs))); split; try lia;
    split; intros; try lia; try discriminate; reflexivity.
Qed.

Lemma results_card_counts_witness :
  exists card,
    resultsCard [] defaultConfig (manyDocs 12) = Ok (Some card)
    /\ moreDocuments card = Some 2
    /\ badgeCount card = List.length (manyDocs 12)
    /\ List.length (previewRows card) = Nat.min 10 (List.length (manyDocs 12)).
Proof.
  destruct (resultsCard [] defaultConfig (manyDocs 12)) as [[card|]|e] eqn:E;
    try (vm_compute in E; discriminate).
  destruct (results_card_counts [] defaultConfig (manyDocs 12) card E)
    as (Hb & Hrows & _).
  exists card. split; [reflexivity|]. split.
  - vm_compute in E. injection E as <-. reflexivity.
  - split; assumption.
Defined.

(** X16.  The slug of a preview row is the slug generated for the
    candidate at that place, and a run reports it as it stands when the
    probe finds no other document and the commit succeeds or the run is
    dry. *)
Theorem preview_slug_is_the_slug_written {Store : Type} (client : SanityClient Store)
    (tbl : CaseTable) (cfg : Config) (docs : list Document) (card : ResultsCard)
    (k : nat) (row : PreviewRow) :
  resultsCard tbl cfg docs = Ok (Some card) ->
  nth_error (previewRows card) k = Some row ->
  exists d,
    nth_error docs k = Some d
    /\ rowType row = _type d
    /\ generateSlugOf tbl cfg (sourceTextOf cfg d) = Ok (rowSlug row)
    /\ forall c : Core Store,
         nonEmpty (rowSlug row) = true ->
         fetch client (probeQuery cfg d (rowSlug row)) (store (world c))
         = Ok (Single None) ->
         (dryRun cfg = true
          \/ exists st', commit client (slugPatch cfg d (rowSlug row))
                           (store (world c)) = Ok st') ->
         slugsGenerated (locals (snd (processDocument client tbl cfg d c)))
         = slugsGenerated (locals c) ++ [rowSlug row].
Proof.
  intros H Hk. destruct (resultsCard_some tbl cfg docs card H) as (_ & Hrows & _).
  destruct (mapIndexed_nth _ _ _ _ _ _ Hrows Hk) as (d & Hd & Hrow).
  apply nth_error_firstn_Some in Hd.
  exists d. split; [exact Hd|].
  unfold previewRow in Hrow.
  destruct (generateSlugOf tbl cfg (sourceTextOf cfg d)) as [slug|e] eqn:Hgen;
    [|discriminate].
  injection Hrow as <-. cbn [rowType rowSlug].
  split; [reflexivity|]. split; [reflexivity|].
  intros c Hne Hfetch Hcommit.
  run_doc. rewrite Hgen. simpl. rewrite Hne. simpl. rewrite Hfetch. simpl.
  destruct (dryRun cfg) eqn:Edry; simpl; [reflexivity|].
  destruct Hcommit as [? | [st' Hc]]; [discriminate|].
  rewrite Hc. reflexivity.
Qed.

Lemma preview_slug_is_the_slug_written_witness :
  exists card row,
    resultsCard [] defaultConfig twoPosts = Ok (Some card)
    /\ nth_error (previewRows card) 0 = Some row
    /\ rowSlug row = lit "post"
    /\ exists d,
         nth_error twoPosts 0 = Some d
         /\ rowType row = _type d
         /\ generateSlugOf [] defaultConfig (sourceTextOf defaultConfig d)
            = Ok (rowSlug row)
         /\ forall c : Core MemStore,
              nonEmpty (rowSlug row) = true ->
              fetch memClient (probeQuery defaultConfig d (rowSlug row))
                (store (world c)) = Ok (Single None) ->
              (dryRun defaultConfig = true
               \/ exists st', commit memClient
                                (slugPatch defaultConfig d (rowSlug row))
                                (store (world c)) = Ok st') ->
              slugsGenerated (locals (snd (processDocument memClient []
                                             defaultConfig d c)))
              = slugsGenerated (locals c) ++ [rowSlug row].
Proof.
  destruct (resultsCard [] defaultConfig twoPosts) as [[card|]|e] eqn:E;
    try (vm_compute in E; discriminate).
  destruct (nth_error (previewRows card) 0) as [row|] eqn:Erow.
  2: { vm_compute in E. injection E as <-. discriminate. }
  exists card, row. split; [reflexivity|]. split; [exact Erow|]. split.
  - vm_compute in E. injection E as <-. injection Erow as <-. reflexivity.
  - exact (preview_slug_is_the_slug_written memClient [] defaultConfig twoPosts
             card 0 row E Erow).
Defined.

(** X17.  Building the results card throws exactly when one of the first
    ten candidates has a source value that is truthy and not a string: the
    callback of [map] calls [generateSlug] outside any [try].  (What React
    then does with the rows is not part of the card.) *)
Theorem results_card_throws_iff (tbl : CaseTable) (cfg : Config)
    (docs : list Document) :
  (exists e, resultsCard tbl cfg docs = Throw e)
  <-> exists d,
        In d (firstn 10 docs)
        /\ truthy (sourceTextOf cfg d) = true
        /\ forall t, sourceTextOf cfg d <> JString t.
Proof.
  unfold resultsCard. rewrite slice_first_ten.
  destruct (Z.ltb_spec 0 (Z.of_nat (List.length docs))) as [Hpos|Hzero].
  - transitivity (exists e, mapIndexed (previewRow tbl cfg) (firstn 10 docs) 0
                            = Throw e).
    { destruct (mapIndexed (previewRow tbl cfg) (firstn 10 docs) 0) as [rows|e].
      - split; intros [e H]; discriminate.
      - split; intros _; eauto. }
    rewrite mapIndexed_throws. split.
    + intros (d & k & Hin & e & Hf & _).
      exists d. split; [exact Hin|].
      apply (generateSlugOf_throws tbl cfg), (previewRow_throws tbl cfg d k).
      eauto.
    + intros (d & Hin & Hthrow).
      apply (generateSlugOf_throws tbl cfg) in Hthrow.
      destruct (In_nth_error _ _ Hin) as [k Hk].
      apply (previewRow_throws tbl cfg d k) in Hthrow. destruct Hthrow as [e He].
      exists d, k. split; [exact Hin|]. exists e.
      rewrite Nat.sub_0_r. repeat split; [exact He | lia | exact Hk].
  - split; [intros [e H]; discriminate|].
    intros (d & Hin & _). destruct docs; [destruct Hin | simpl in Hzero; lia].
Qed.

(** * The examples of the specification *)

Example generate_hello_world :
  generateSlug [] defaultConfig (lit "Hello, World!") = lit "hello-world".
Proof. vm_compute. reflexivity. Qed.

Example generate_spaces_and_underscores :
  generateSlug [] defaultConfig (lit "  Multiple   Spaces--and__Underscores  ")
  = lit "multiple-spaces-and-underscores".
Proof. vm_compute. reflexivity. Qed.

Example generate_with_prefix :
  generateSlug [] (withAffixes (lit "blog") []) (lit "Title") = lit "blog-title".
Proof. vm_compute. reflexivity. Qed.

Example generate_with_suffix :
  generateSlug [] (withAffixes [] (lit "v2")) (lit "Title") = lit "title-v2".
Proof. vm_compute. reflexivity. Qed.

Example generate_beyond_ascii :
  generateSlug sampleCaseTable defaultConfig [8490; 304; 32; 160; 201] = lit "ki".
Proof. vm_compute. reflexivity. Qed.

Example decimal_of_numbers :
  decimal 1730000000123 = lit "1730000000123" /\ decimal 0 = lit "0"
  /\ decimal (-5) = lit "-5".
Proof. vm_compute. repeat split. Qed.

Example structured_query_text :
  render (QScan (Some (lit "post")) (Some (lit "cat")) 1000 (lit "slug"))
  = lit "*[_type == " ++ [quote] ++ lit "post" ++ [quote]
    ++ lit " && (title match " ++ [quote] ++ lit "*cat*" ++ [quote]
    ++ lit " || name match " ++ [quote] ++ lit "*cat*" ++ [quote]
    ++ lit ")][0...1000] {" ++ newline
    ++ lit "          _id," ++ newline ++ lit "          _type," ++ newline
    ++ lit "          title," ++ newline ++ lit "          name," ++ newline
    ++ lit "          slug" ++ newline ++ lit "        }".
Proof. vm_compute. reflexivity. Qed.

(** A document with no source text and an empty identifier: the failure is
    noted and the next document is converted. *)
Example no_source_text_then_next :
  option_map (fun s => locals (core s))
    (convertToSlugs memClient [] defaultConfig
       [{| _id := []; _type := lit "post"; attrs := [] |};
        textDoc "a" "post" "Post"] 1 (newSt [textDoc "a" "post" "Post"] 0))
  = Some {| converted := 1;
            errors := [lit "Failed to generate slug for : no source text found"];
            slugsGenerated := [lit "post"] |}.
Proof. vm_compute. reflexivity. Qed.

(** The source field changed between the scan and the run: a document
    selected for its [headline] has, once the field reads [title] again, no
    source value left but its identifier. *)
Example changed_source_field_falls_back_to_id :
  needsConversion
    {| batchSize := 10; dryRun := false; maxDocuments := 1000;
       selectedType := []; searchQuery := [];
       useCustomQuery := true; customGroqQuery := lit "*";
       slugField := lit "slug"; sourceField := lit "headline";
       slugPrefix := []; slugSuffix := [];
       replaceExisting := false |}
    {| _id := lit "h"; _type := lit "post";
       attrs := [(lit "headline", JString (lit "News"))] |} = true
  /\ sourceTextOf defaultConfig
       {| _id := lit "h"; _type := lit "post";
          attrs := [(lit "headline", JString (lit "News"))] |}
     = JString (lit "h").
Proof. split; reflexivity. Qed.

(** A key that no document has of its own, but every object inherits. *)
Example inherited_property :
  getProp bareDoc (lit "constructor") = JFunction (lit "constructor")
  /\ getProp bareDoc (lit "title") = JUndefined
  /\ getProp {| _id := lit "c"; _type := lit "post";
                attrs := [(lit "constructor", JString (lit "Wren"))] |}
       (lit "constructor") = JString (lit "Wren")
  /\ generateSlugOf [] defaultConfig (getProp bareDoc (lit "toString"))
     = Throw (ThrownError (lit "text.toLowerCase is not a function")).
Proof. repeat split. Qed.

(** A value that is not a string where the source text is read: the call of
    [toLowerCase] throws, and the failure is recorded for the document. *)
Example source_of_another_type :
  option_map (fun s => locals (core s))
    (convertToSlugs memClient [] defaultConfig
       [{| _id := lit "n"; _type := lit "post";
           attrs := [(lit "title", JNumber 42)] |}] 1 (newSt [] 0))
  = Some {| converted := 0;
            errors := [lit "Failed to convert n: text.toLowerCase is not a function"];
            slugsGenerated := [] |}.
Proof. vm_compute. reflexivity. Qed.
